(** * prep-json.py: line-delimited JSON to one pretty-printed JSON array

    A shallow embedding of [prep-json.py] together with the parts of the
    Python runtime it calls: [json.loads] (reached through the jsonlines
    reader), [json.dump] with [indent=4], text files and [print].

    Python [str] values are sequences of Unicode code points; they are
    modelled as lists of [N].  Python's unbounded [int] is [Z].  Python's
    [float] is kept abstract behind the class [FloatModel].

    What the model takes from the runtime:
    - the decoder is CPython 3.11's [json] package as its Python sources
      define it, with the digit class of the number pattern read as the
      ASCII digits and the four characters of a [\u] escape as
      hexadecimal digits;
    - the jsonlines reader decodes each line with [json.loads];
    - the input file holds UTF-8 text, given here already decoded, and is
      split into lines by universal newlines;
    - the interpreter's recursion limit and its limit on the number of
      digits of an [int] are not reached;
    - an exception that leaves [main] ends the process with exit status 1,
      and [SystemExit] with the status it carries. *)

From Stdlib Require Import ZArith NArith List String Ascii Lia.
From Stdlib Require Import Decimal DecimalFacts DecimalPos DecimalZ.
From stdpp Require Import base option list gmap.

Local Open Scope N_scope.

(** ** Python strings *)

Module Py.

Abbreviation str := (list N).

(** A string literal of the source, as code points. *)
Definition lit (s : string) : str :=
  map N_of_ascii (list_ascii_of_string s).

(** [s.startswith(prefix)], returning what follows the prefix. *)
Fixpoint strip_prefix (prefix s : str) : option str :=
  match prefix, s with
  | [], _ => Some s
  | p :: prefix', c :: s' =>
      if decide (p = c) then strip_prefix prefix' s' else None
  | _ :: _, [] => None
  end.

Definition startswith (s prefix : str) : bool :=
  bool_decide (is_Some (strip_prefix prefix s)).

(** [sep.join(chunks)] *)
Fixpoint join (sep : str) (chunks : list str) : str :=
  match chunks with
  | [] => []
  | [c] => c
  | c :: rest => c ++ sep ++ join sep rest
  end.

(** *** [int.__repr__] and [int(text)] over decimal digits *)

Definition digit_char (d : N) : N := 48 + d.

Fixpoint uint_chars (u : Decimal.uint) : str :=
  match u with
  | Decimal.Nil => []
  | Decimal.D0 u => digit_char 0 :: uint_chars u
  | Decimal.D1 u => digit_char 1 :: uint_chars u
  | Decimal.D2 u => digit_char 2 :: uint_chars u
  | Decimal.D3 u => digit_char 3 :: uint_chars u
  | Decimal.D4 u => digit_char 4 :: uint_chars u
  | Decimal.D5 u => digit_char 5 :: uint_chars u
  | Decimal.D6 u => digit_char 6 :: uint_chars u
  | Decimal.D7 u => digit_char 7 :: uint_chars u
  | Decimal.D8 u => digit_char 8 :: uint_chars u
  | Decimal.D9 u => digit_char 9 :: uint_chars u
  end.

Definition int_repr (z : Z) : str :=
  match Z.to_int z with
  | Decimal.Pos u => uint_chars u
  | Decimal.Neg u => 45 :: uint_chars u
  end.

Definition is_digit (c : N) : bool := (48 <=? c) && (c <=? 57).

Fixpoint chars_uint (s : str) : Decimal.uint :=
  match s with
  | [] => Decimal.Nil
  | c :: s' =>
      let u := chars_uint s' in
      match c - 48 with
      | 0 => Decimal.D0 u | 1 => Decimal.D1 u | 2 => Decimal.D2 u
      | 3 => Decimal.D3 u | 4 => Decimal.D4 u | 5 => Decimal.D5 u
      | 6 => Decimal.D6 u | 7 => Decimal.D7 u | 8 => Decimal.D8 u
      | _ => Decimal.D9 u
      end
  end.

(** [int(text)] for a text made of an optional minus sign and digits
    (the only texts the JSON scanner passes to it). *)
Definition int_of_str (text : str) : Z :=
  match text with
  | c :: digits =>
      if decide (c = 45) then Z.of_int (Decimal.Neg (chars_uint digits))
      else Z.of_int (Decimal.Pos (chars_uint text))
  | [] => Z.of_int (Decimal.Pos Decimal.Nil)
  end.

(** *** ['{0:04x}'.format(n)] for [n < 0x10000], and hexadecimal digits *)

Definition hex_char (d : N) : N := if d <? 10 then 48 + d else 87 + d.

Definition format_04x (n : N) : str :=
  [hex_char (n / 4096 mod 16); hex_char (n / 256 mod 16);
   hex_char (n / 16 mod 16); hex_char (n mod 16)].

Definition hex_val (c : N) : option N :=
  if (48 <=? c) && (c <=? 57) then Some (c - 48)
  else if (97 <=? c) && (c <=? 102) then Some (c - 87)
  else if (65 <=? c) && (c <=? 70) then Some (c - 55)
  else None.

(** *** Text decoded from UTF-8

    A UTF-8 decoder yields Unicode scalar values only: code points up to
    0x10FFFF that are not surrogates. *)

Definition is_scalar (c : N) : bool :=
  (c <? 0xd800) || ((0xdfff <? c) && (c <? 0x110000)).

Definition valid_text (s : str) : Prop :=
  Forall (fun c => is_scalar c = true) s.

End Py.

Import Py.

(** ** Python floats

    [float(text)], [float.__repr__] and [==] on floats are not modelled
    bit by bit: they are the fields of a class, and the facts the JSON
    round trip needs from them are the laws [FloatLaws] further down. *)

Class FloatModel := {
  pyfloat : Type;
  float_of_str : str -> pyfloat;
  float_repr : pyfloat -> str;
  float_eqb : pyfloat -> pyfloat -> bool;
  NaN : pyfloat;
  PosInf : pyfloat;
  NegInf : pyfloat;
}.

(** ** json.scanner: NUMBER_RE

    Three groups matched at the start of the text: the integer part (an
    optional minus sign, then either a single 0 or a digit 1-9 followed by
    any digits), an optional fraction (a dot and one or more digits) and an
    optional exponent (e or E, an optional sign, one or more digits).  The
    result is the three groups and the text after the match.
    Digits are the ASCII digits, as the [_json] accelerator reads them. *)

Module NumberRe.

Fixpoint span_digits (s : str) : str * str :=
  match s with
  | c :: s' =>
      if is_digit c then let '(ds, r) := span_digits s' in (c :: ds, r)
      else ([], s)
  | [] => ([], [])
  end.

(** One or more digits. *)
Definition digits1 (s : str) : option (str * str) :=
  match span_digits s with
  | ([], _) => None
  | (ds, r) => Some (ds, r)
  end.

(** The integer group: after the optional [sign], a single 0 or a
    digit 1-9 followed by any digits. *)
Definition integer_digits (sign s : str) : option (str * str) :=
  match s with
  | c :: t =>
      if decide (c = 48) then Some (sign ++ [48], t)
      else if is_digit c then
        let '(ds, r) := span_digits t in Some (sign ++ c :: ds, r)
      else None
  | [] => None
  end.

Definition integer_group (s : str) : option (str * str) :=
  match s with
  | c :: t =>
      if decide (c = 45) then integer_digits [45] t
      else integer_digits [] s
  | [] => None
  end.

(** The optional fraction group. *)
Definition frac_group (s : str) : option str * str :=
  match s with
  | c :: t =>
      if decide (c = 46) then
        match digits1 t with
        | Some (ds, r) => (Some (46 :: ds), r)
        | None => (None, s)
        end
      else (None, s)
  | [] => (None, s)
  end.

(** The optional exponent group.  When a sign is read and no digit
    follows, the regex backtracks to the sign-less form, which fails on
    the sign: the group is absent either way. *)
Definition exp_group (s : str) : option str * str :=
  match s with
  | c :: t =>
      if bool_decide (c = 101 \/ c = 69) then
        let '(sign, t1) :=
          match t with
          | g :: t' =>
              if bool_decide (g = 45 \/ g = 43) then ([g], t') else ([], t)
          | [] => ([], t)
          end in
        match digits1 t1 with
        | Some (ds, r) => (Some (c :: sign ++ ds), r)
        | None => (None, s)
        end
      else (None, s)
  | [] => (None, s)
  end.

Definition match_number (s : str)
  : option (str * option str * option str * str) :=
  match integer_group s with
  | None => None
  | Some (integer, s1) =>
      let '(frac, s2) := frac_group s1 in
      let '(exp, s3) := exp_group s2 in
      Some (integer, frac, exp, s3)
  end.

(** [x or ''] *)
Definition or_empty (g : option str) : str := default [] g.

End NumberRe.

Import NumberRe.

(** A text that the scanner reads as a float: the whole of it matches, with
    a fraction or an exponent. *)
Definition float_literal (text : str) : Prop :=
  exists integer frac exp,
    match_number text = Some (integer, frac, exp, [])
    /\ (is_Some frac \/ is_Some exp).

(** The texts that may follow a number without changing how it is read:
    the end of the text, or a character that continues no number. *)
Definition number_end (rest : str) : Prop :=
  match rest with
  | [] => True
  | c :: _ =>
      is_digit c = false
      /\ c <> 46 /\ c <> 101 /\ c <> 69 /\ c <> 43 /\ c <> 45
  end.

(** The floats the decoder can produce: the three constants, and
    [float(text)] for the text of a number matched with a fraction or an
    exponent. *)
Definition decodable_float `{FloatModel} (f : pyfloat) : Prop :=
  f = NaN \/ f = PosInf \/ f = NegInf
  \/ exists s integer frac exp r,
       match_number s = Some (integer, frac, exp, r)
       /\ (is_Some frac \/ is_Some exp)
       /\ f = float_of_str (integer ++ or_empty frac ++ or_empty exp).

(** What the round trip needs from Python's floats, for the floats the
    decoder can produce: only NaN differs from itself; the infinities are
    the two constants; and the [repr] of any other float is a float literal
    that [float] reads back to it. *)
Class FloatLaws (FM : FloatModel) : Prop := {
  nan_law : forall f, decodable_float f -> float_eqb f f = false -> f = NaN;
  posinf_law : forall f, decodable_float f ->
    float_eqb f f = true -> float_eqb f PosInf = true -> f = PosInf;
  neginf_law : forall f, decodable_float f ->
    float_eqb f f = true -> float_eqb f PosInf = false ->
    float_eqb f NegInf = true -> f = NegInf;
  repr_law : forall f, decodable_float f ->
    float_eqb f f = true -> float_eqb f PosInf = false ->
    float_eqb f NegInf = false ->
    float_literal (float_repr f) /\ float_of_str (float_repr f) = f;
}.

(** ** The json module *)

Module json.

(** What [json.loads] returns and [json.dump] accepts: [None], [bool],
    [int], [float], [str], [list] and [dict].  A [dict] keeps its keys in
    insertion order; it is the list of its items.  The type of the floats
    is a parameter. *)
Unset Elimination Schemes.
Inductive pyvalue (float : Type) :=
| VNone
| VBool (b : bool)
| VInt (z : Z)
| VFloat (f : float)
| VStr (s : str)
| VList (lst : list (pyvalue float))
| VDict (items : list (str * pyvalue float)).
Set Elimination Schemes.
Arguments VNone {float}.
Arguments VBool {float} b.
Arguments VInt {float} z.
Arguments VFloat {float} f.
Arguments VStr {float} s.
Arguments VList {float} lst.
Arguments VDict {float} items.

(** The values over the floats of the model at hand. *)
Abbreviation value := (pyvalue pyfloat).

Section WithFloats.
Context {FM : FloatModel}.

(** [d[key] = v] on a dict: an existing key keeps its position. *)
Fixpoint dict_setitem (d : list (str * value)) (key : str) (v : value)
  : list (str * value) :=
  match d with
  | [] => [(key, v)]
  | (k, x) :: d' =>
      if decide (k = key) then (k, v) :: d'
      else (k, x) :: dict_setitem d' key v
  end.

(** [dict(pairs)] *)
Definition dict_of_pairs (pairs : list (str * value)) : list (str * value) :=
  fold_left (fun d kv => dict_setitem d kv.1 kv.2) pairs [].

(** *** json.encoder *)

(** [ESCAPE_DCT]: the short escapes, and [\u00XX] for the other
    characters below 0x20. *)
Definition ESCAPE_DCT (c : N) : option str :=
  if decide (c = 92) then Some [92; 92]
  else if decide (c = 34) then Some [92; 34]
  else if decide (c = 8) then Some [92; 98]
  else if decide (c = 12) then Some [92; 102]
  else if decide (c = 10) then Some [92; 110]
  else if decide (c = 13) then Some [92; 114]
  else if decide (c = 9) then Some [92; 116]
  else if c <? 32 then Some (92 :: 117 :: format_04x c)
  else None.

(** The [replace] callback of [py_encode_basestring_ascii]. *)
Definition replace (c : N) : str :=
  match ESCAPE_DCT c with
  | Some e => e
  | None =>
      if c <? 0x10000 then 92 :: 117 :: format_04x c
      else
        let n := c - 0x10000 in
        let s1 := N.lor 0xd800 (N.land (N.shiftr n 10) 0x3ff) in
        let s2 := N.lor 0xdc00 (N.land n 0x3ff) in
        (92 :: 117 :: format_04x s1) ++ (92 :: 117 :: format_04x s2)
  end.

(** [ESCAPE_ASCII] matches a backslash, a double quote, and every
    character outside the range from space to tilde. *)
Definition ESCAPE_ASCII (c : N) : bool :=
  bool_decide (c = 92 \/ c = 34) || negb ((32 <=? c) && (c <=? 126)).

(** [ESCAPE_ASCII.sub(replace, s)], one character at a time. *)
Definition escape (c : N) : str :=
  if ESCAPE_ASCII c then replace c else [c].

Definition py_encode_basestring_ascii (s : str) : str :=
  34 :: flat_map escape s ++ [34].

Definition floatstr (o : pyfloat) : str :=
  if negb (float_eqb o o) then lit "NaN"
  else if float_eqb o PosInf then lit "Infinity"
  else if float_eqb o NegInf then lit "-Infinity"
  else float_repr o.

(** [_make_iterencode] with [_indent = 4], [_item_separator = ','],
    [_key_separator = ': '], [_sort_keys = False]: the concatenation of
    the chunks it yields. *)
Definition _indent : str := repeat 32 4.
Definition _item_separator : str := [44].
Definition _key_separator : str := [58; 32].

Definition newline_indent (level : nat) : str :=
  10 :: mjoin (repeat _indent level).

Definition _iterencode_list (enc : value -> nat -> str)
    (lst : list value) (_current_indent_level : nat) : str :=
  match lst with
  | [] => lit "[]"
  | _ =>
      let level := S _current_indent_level in
      let separator := _item_separator ++ newline_indent level in
      [91] ++ newline_indent level
        ++ join separator (map (fun v => enc v level) lst)
        ++ newline_indent _current_indent_level ++ [93]
  end.

Definition _iterencode_dict (enc : value -> nat -> str)
    (dct : list (str * value)) (_current_indent_level : nat) : str :=
  match dct with
  | [] => lit "{}"
  | _ =>
      let level := S _current_indent_level in
      let item_separator := _item_separator ++ newline_indent level in
      [123] ++ newline_indent level
        ++ join item_separator
             (map (fun kv => py_encode_basestring_ascii kv.1
                               ++ _key_separator ++ enc kv.2 level) dct)
        ++ newline_indent _current_indent_level ++ [125]
  end.

Fixpoint _iterencode (o : value) (_current_indent_level : nat) : str :=
  match o with
  | VStr s => py_encode_basestring_ascii s
  | VNone => lit "null"
  | VBool true => lit "true"
  | VBool false => lit "false"
  | VInt z => int_repr z
  | VFloat f => floatstr f
  | VList lst => _iterencode_list _iterencode lst _current_indent_level
  | VDict dct => _iterencode_dict _iterencode dct _current_indent_level
  end.

(** [JSONEncoder(indent=4).iterencode(o)], joined. *)
Definition iterencode (o : value) : str := _iterencode o 0.

(** *** json.decoder *)

Definition is_ws (c : N) : bool :=
  bool_decide (c = 32 \/ c = 9 \/ c = 10 \/ c = 13).

(** [_w(s, end).end()]: the text after the leading whitespace. *)
Fixpoint skip_ws (s : str) : str :=
  match s with
  | c :: s' => if is_ws c then skip_ws s' else s
  | [] => []
  end.

Definition BACKSLASH (esc : N) : option N :=
  if decide (esc = 34) then Some 34
  else if decide (esc = 92) then Some 92
  else if decide (esc = 47) then Some 47
  else if decide (esc = 98) then Some 8
  else if decide (esc = 102) then Some 12
  else if decide (esc = 110) then Some 10
  else if decide (esc = 114) then Some 13
  else if decide (esc = 116) then Some 9
  else None.

(** [_decode_uXXXX] on the four characters after the [u]; four
    hexadecimal digits, as the [_json] accelerator reads them. *)
Definition _decode_uXXXX (h1 h2 h3 h4 : N) : option N :=
  a ← hex_val h1; b ← hex_val h2; c ← hex_val h3; d ← hex_val h4;
  Some (a * 4096 + b * 256 + c * 16 + d).

Definition is_high_surrogate (uni : N) : bool :=
  (0xd800 <=? uni) && (uni <=? 0xdbff).
Definition is_low_surrogate (uni : N) : bool :=
  (0xdc00 <=? uni) && (uni <=? 0xdfff).

Definition join_surrogates (uni uni2 : N) : N :=
  0x10000 + N.lor (N.shiftl (uni - 0xd800) 10) (uni2 - 0xdc00).

(** [py_scanstring(s, end, strict=True)], from the character after the
    opening quote; [chunks] is the text decoded so far.  Ordinary
    characters are taken one at a time instead of by regex chunk. *)
Fixpoint scanstring (s : str) (chunks : str) : option (str * str) :=
  match s with
  | [] => None
  | terminator :: s1 =>
      if decide (terminator = 34) then Some (chunks, s1)
      else if decide (terminator = 92) then
        match s1 with
        | [] => None
        | esc :: s2 =>
            if decide (esc = 117) then
              match s2 with
              | h1 :: h2 :: h3 :: h4 :: s6 =>
                  match _decode_uXXXX h1 h2 h3 h4 with
                  | None => None
                  | Some uni =>
                      if is_high_surrogate uni then
                        match s6 with
                        | b :: u :: s8 =>
                            if bool_decide (b = 92 /\ u = 117) then
                              match s8 with
                              | l1 :: l2 :: l3 :: l4 :: s12 =>
                                  match _decode_uXXXX l1 l2 l3 l4 with
                                  | None => None
                                  | Some uni2 =>
                                      if is_low_surrogate uni2 then
                                        scanstring s12
                                          (chunks ++ [join_surrogates uni uni2])
                                      else scanstring s6 (chunks ++ [uni])
                                  end
                              | _ => None
                              end
                            else scanstring s6 (chunks ++ [uni])
                        | _ => scanstring s6 (chunks ++ [uni])
                        end
                      else scanstring s6 (chunks ++ [uni])
                  end
              | _ => None
              end
            else
              match BACKSLASH esc with
              | Some char => scanstring s2 (chunks ++ [char])
              | None => None
              end
        end
      else if terminator <? 32 then None
      else scanstring s1 (chunks ++ [terminator])
  end.

Section Scanner.
(** The [scan_once] callback handed to [JSONObject] and [JSONArray]. *)
Variable scan_once : str -> option (value * str).

(** The [while True] loop of [JSONArray]; [n] bounds the number of
    iterations. *)
Fixpoint JSONArray_loop (n : nat) (s : str) (values : list value)
  : option (value * str) :=
  match n with
  | O => None
  | S n' =>
      '(v, s1) ← scan_once s;
      let values := values ++ [v] in
      match skip_ws s1 with
      | nextchar :: s2 =>
          if decide (nextchar = 93) then Some (VList values, s2)
          else if decide (nextchar = 44) then
            JSONArray_loop n' (skip_ws s2) values
          else None
      | [] => None
      end
  end.

Definition JSONArray (s : str) : option (value * str) :=
  let s1 := skip_ws s in
  match s1 with
  | nextchar :: s2 =>
      if decide (nextchar = 93) then Some (VList [], s2)
      else JSONArray_loop (length s1) s1 []
  | [] => None
  end.

(** The [while True] loop of [JSONObject], entered after the opening
    quote of a key. *)
Fixpoint JSONObject_loop (n : nat) (s : str) (pairs : list (str * value))
  : option (value * str) :=
  match n with
  | O => None
  | S n' =>
      '(key, s1) ← scanstring s [];
      match skip_ws s1 with
      | colon :: s2 =>
          if decide (colon = 58) then
            '(v, s3) ← scan_once (skip_ws s2);
            let pairs := pairs ++ [(key, v)] in
            match skip_ws s3 with
            | nextchar :: s4 =>
                if decide (nextchar = 125) then
                  Some (VDict (dict_of_pairs pairs), s4)
                else if decide (nextchar = 44) then
                  match skip_ws s4 with
                  | quote :: s5 =>
                      if decide (quote = 34) then
                        JSONObject_loop n' s5 pairs
                      else None
                  | [] => None
                  end
                else None
            | [] => None
            end
          else None
      | [] => None
      end
  end.

Definition JSONObject (s : str) : option (value * str) :=
  match skip_ws s with
  | nextchar :: s1 =>
      if decide (nextchar = 125) then Some (VDict [], s1)
      else if decide (nextchar = 34) then JSONObject_loop (length s1) s1 []
      else None
  | [] => None
  end.
End Scanner.

(** [_scan_once] of [py_make_scanner]; [fuel] bounds the nesting depth
    of arrays and objects. *)
Fixpoint _scan_once (fuel : nat) (string : str) : option (value * str) :=
  match fuel, string with
  | O, _ => None
  | _, [] => None
  | S fuel', nextchar :: rest =>
      if decide (nextchar = 34) then
        '(s, r) ← scanstring rest []; Some (VStr s, r)
      else if decide (nextchar = 123) then JSONObject (_scan_once fuel') rest
      else if decide (nextchar = 91) then JSONArray (_scan_once fuel') rest
      else
        match strip_prefix (lit "null") string with
        | Some r => Some (VNone, r)
        | None =>
        match strip_prefix (lit "true") string with
        | Some r => Some (VBool true, r)
        | None =>
        match strip_prefix (lit "false") string with
        | Some r => Some (VBool false, r)
        | None =>
        match match_number string with
        | Some (integer, frac, exp, r) =>
            if bool_decide (is_Some frac \/ is_Some exp) then
              Some (VFloat (float_of_str
                              (integer ++ or_empty frac ++ or_empty exp)), r)
            else Some (VInt (int_of_str integer), r)
        | None =>
        match strip_prefix (lit "NaN") string with
        | Some r => Some (VFloat NaN, r)
        | None =>
        match strip_prefix (lit "Infinity") string with
        | Some r => Some (VFloat PosInf, r)
        | None =>
        match strip_prefix (lit "-Infinity") string with
        | Some r => Some (VFloat NegInf, r)
        | None => None
        end end end end end end end
  end.

(** [JSONDecoder.raw_decode]: arrays and objects cannot nest deeper than
    the text is long. *)
Definition raw_decode (s : str) : option (value * str) :=
  _scan_once (S (length s)) s.

(** [JSONDecoder.decode] *)
Definition decode (s : str) : option value :=
  '(obj, rest) ← raw_decode (skip_ws s);
  match skip_ws rest with
  | [] => Some obj
  | _ :: _ => None
  end.

(** [json.loads(s)] for a [str]; [None] stands for the [ValueError]
    (a [JSONDecodeError]) it raises. *)
Definition loads (s : str) : option value :=
  if startswith s [0xfeff] then None else decode s.

(** *** Values that survive a round trip

    A Python [str] may hold any code points below 0x110000, surrogates
    included.  One that holds a high surrogate directly followed by a low
    one is printed as two [\u] escapes, which [scanstring] reads back as
    a single character; every other string is read back as it was. *)

Fixpoint no_surrogate_pair (s : str) : Prop :=
  match s with
  | h :: t =>
      match t with
      | l :: _ =>
          ~ (is_high_surrogate h = true /\ is_low_surrogate l = true)
      | [] => True
      end /\ no_surrogate_pair t
  | [] => True
  end.

Definition str_ok (s : str) : Prop :=
  Forall (fun c => c < 0x110000) s /\ no_surrogate_pair s.

Unset Elimination Schemes.
Inductive wf : value -> Prop :=
  | wf_None : wf VNone
  | wf_Bool b : wf (VBool b)
  | wf_Int z : wf (VInt z)
  | wf_Float f : decodable_float f -> wf (VFloat f)
  | wf_Str s : str_ok s -> wf (VStr s)
  | wf_List lst : Forall wf lst -> wf (VList lst)
  | wf_Dict items :
    NoDup items.*1 ->
    Forall (fun kv => str_ok kv.1 /\ wf kv.2) items ->
    wf (VDict items).
Set Elimination Schemes.

(** How deep arrays and objects nest in a value. *)
Fixpoint depth (v : value) : nat :=
  match v with
  | VList lst => S (max_list (map depth lst))
  | VDict items => S (max_list (map (fun kv => depth kv.2) items))
  | _ => O
  end.

End WithFloats.
End json.

(** ** A float model to compute with

    Exact decimal numbers [m * 10^e] and the three constants.  It prints a
    finite number as its mantissa, the letter e and its exponent, which the
    scanner reads back to the same number.  It exists to run the model on
    concrete inputs and to show that the float laws can be met; the
    theorems below hold for every model that meets the laws. *)

Module DecimalFloat.

Inductive dfloat :=
| DFinite (m e : Z)
| DInf
| DNegInf
| DNaN.

(** The digits of a fraction group, without the dot. *)
Definition frac_digits (frac : option str) : str :=
  match frac with
  | Some (_ :: ds) => ds
  | _ => []
  end.

(** The value of an exponent group. *)
Definition exp_value (exp : option str) : Z :=
  match exp with
  | Some (_ :: g :: ds) =>
      if decide (g = 43) then int_of_str ds else int_of_str (g :: ds)
  | _ => 0%Z
  end.

Definition of_str (text : str) : dfloat :=
  match match_number text with
  | Some (integer, frac, exp, _) =>
      DFinite (int_of_str (integer ++ frac_digits frac))
              (exp_value exp - Z.of_nat (length (frac_digits frac)))
  | None => DNaN
  end.

Definition repr (f : dfloat) : str :=
  match f with
  | DFinite m e => int_repr m ++ [101] ++ int_repr e
  | DInf => lit "inf"
  | DNegInf => lit "-inf"
  | DNaN => lit "nan"
  end.

Definition eqb (a b : dfloat) : bool :=
  match a, b with
  | DFinite m e, DFinite m' e' => (m =? m')%Z && (e =? e')%Z
  | DInf, DInf => true
  | DNegInf, DNegInf => true
  | _, _ => false
  end.

#[export] Instance model : FloatModel := {
  pyfloat := dfloat;
  float_of_str := of_str;
  float_repr := repr;
  float_eqb := eqb;
  NaN := DNaN;
  PosInf := DInf;
  NegInf := DNegInf;
}.

End DecimalFloat.

(** ** Files, standard output and exceptions *)

Module os.

Inductive mode := R | W.

(** File operations, in the order the process performs them. *)
Inductive event :=
| EvOpen (path : str) (m : mode)
| EvWrite (path : str) (text : str)
| EvClose (path : str).

(** The world a run acts on.  [files] maps a path to the text of the
    regular file there (as decoded code points); [no_read] and
    [no_write] hold the paths that [open] refuses in that mode
    (permissions, a directory, a missing parent directory); [stdout]
    holds the lines printed so far. *)
Record world := World {
  files : gmap (list N) (list N);
  no_read : gset (list N);
  no_write : gset (list N);
  stdout : list (list N);
  trace : list event;
}.

Inductive invalid_line := invalid_json | null_value.

Inductive exn :=
| SystemExit (code : Z)
| IndexError
| OSError (path : str)
| InvalidLineError (why : invalid_line) (line : str) (lineno : nat).

Inductive result (A : Type) :=
| Return (a : A)
| Raise (e : exn).
Arguments Return {A} a.
Arguments Raise {A} e.

(** A computation: it changes the world and returns or raises. *)
Definition M (A : Type) : Type := world -> result A * world.

Definition ret {A} (a : A) : M A := fun w => (Return a, w).
Definition raise {A} (e : exn) : M A := fun w => (Raise e, w).
Definition bind {A B} (m : M A) (k : A -> M B) : M B :=
  fun w =>
    match m w with
    | (Return a, w') => k a w'
    | (Raise e, w') => (Raise e, w')
    end.

(** [with enter as r: body]: [exit] runs whether [body] returns or
    raises, and an exception of [body] is raised again after it. *)
Definition with_ {Res A} (enter : M Res) (exit : Res -> M unit)
    (body : Res -> M A) : M A :=
  bind enter (fun r w =>
    match body r w with
    | (Return a, w') => bind (exit r) (fun _ => ret a) w'
    | (Raise e, w') => bind (exit r) (fun _ => raise e) w'
    end).

Definition log (ev : event) : M unit :=
  fun w => (Return tt,
            World (files w) (no_read w) (no_write w) (stdout w)
                  (trace w ++ [ev])).

Definition set_file (path text : str) : M unit :=
  fun w => (Return tt,
            World (<[path := text]> (files w)) (no_read w) (no_write w)
                  (stdout w) (trace w)).

(** [print(text)] *)
Definition print (text : str) : M unit :=
  fun w => (Return tt,
            World (files w) (no_read w) (no_write w) (stdout w ++ [text])
                  (trace w)).

(** [sys.exit(code)] *)
Definition sys_exit {A} (code : Z) : M A := raise (SystemExit code).

(** [sys.argv[i]] *)
Definition getitem (argv : list str) (i : nat) : M str :=
  match argv !! i with
  | Some a => ret a
  | None => raise IndexError
  end.

(** Universal newlines on reading: CR LF and a lone CR become LF. *)
Fixpoint universal_newlines (s : str) : str :=
  match s with
  | [] => []
  | c :: s' =>
      if decide (c = 13) then
        10 :: match s' with
              | d :: s'' =>
                  if decide (d = 10) then universal_newlines s''
                  else universal_newlines s'
              | [] => []
              end
      else c :: universal_newlines s'
  end.

(** The codec utf-8-sig drops one leading byte order mark. *)
Definition utf_8_sig (s : str) : str :=
  match s with
  | c :: s' => if decide (c = 0xfeff) then s' else s
  | [] => []
  end.

(** Iterating a text file: the lines, each with its newline; the last
    one may lack it. *)
Fixpoint readlines_from (s : str) (line : str) : list str :=
  match s with
  | [] => match line with [] => [] | _ => [line] end
  | c :: s' =>
      if decide (c = 10) then (line ++ [c]) :: readlines_from s' []
      else readlines_from s' (line ++ [c])
  end.

Definition readlines (s : str) : list str := readlines_from s [].

(** [open(path, 'rt', encoding='utf-8-sig')], reduced to the lines that
    iterating the file yields. *)
Definition open_r (path : str) : M (list str) :=
  fun w =>
    match files w !! path with
    | Some text =>
        if decide (path ∈ no_read w) then raise (OSError path) w
        else bind (log (EvOpen path R))
               (fun _ => ret (readlines (universal_newlines (utf_8_sig text)))) w
    | None => raise (OSError path) w
    end.

(** [open(path, 'w')]: creates the file or truncates it. *)
Definition open_w (path : str) : M str :=
  fun w =>
    if decide (path ∈ no_write w) then raise (OSError path) w
    else bind (log (EvOpen path W))
           (fun _ => bind (set_file path []) (fun _ => ret path)) w.

(** [f.write(text)] on a file opened for writing. *)
Definition write (f : str) (text : str) : M unit :=
  fun w =>
    bind (log (EvWrite f text))
      (fun _ => set_file f (default [] (files w !! f) ++ text)) w.

Definition close (f : str) : M unit := log (EvClose f).

(** The exit status of the process: an uncaught exception other than
    [SystemExit] ends it with status 1. *)
Definition exit_status {A} (r : result A) : Z :=
  match r with
  | Return _ => 0
  | Raise (SystemExit code) => code
  | Raise _ => 1
  end.

End os.

Import os.

#[local] Instance M_ret : MRet M := @ret.
#[local] Instance M_bind : MBind M := fun A B k m => bind m k.

(** ** jsonlines

    The reader as [for obj in reader] drives it: [Reader.iter] with its
    defaults [type=None], [allow_none=False], [skip_empty=False],
    [skip_invalid=False], and [json.loads] as the decoder. *)

Module jsonlines.
Section WithFloats.
Context {FM : FloatModel}.
Import json.

(** The record separator of RFC 7464 and the byte order mark. *)
Definition SKIPPABLE_SINGLE_INITIAL_CHARS : list N := [0x1e; 0xfeff].

Definition skip_initial (line : str) : str :=
  match line with
  | c :: line' =>
      if decide (c ∈ SKIPPABLE_SINGLE_INITIAL_CHARS) then line' else line
  | [] => line
  end.

(** [Reader.read] on the line numbered [lineno]. *)
Definition Reader_read (lineno : nat) (line : str) : M value :=
  let line := skip_initial line in
  match loads line with
  | None => raise (InvalidLineError invalid_json line lineno)
  | Some VNone => raise (InvalidLineError null_value line lineno)
  | Some v => ret v
  end.

(** [jsonlines.open(path)] and leaving its [with] block. *)
Definition open (path : str) : M (str * list str) :=
  lines ← open_r path; mret (path, lines).

Definition Reader_close (reader : str * list str) : M unit :=
  close reader.1.

End WithFloats.
End jsonlines.

(** ** prep-json.py *)

Module prep_json.
Section WithFloats.
Context {FM : FloatModel}.
Import json.

Definition usage : str :=
  lit "Usage: python prep-json.py <input_file> <output_file>".

(** The f-string of the last line. *)
Definition combined (input_file output_file : str) : str :=
  lit "Combined JSON objects from " ++ input_file
    ++ lit " into " ++ output_file.

(** [for obj in reader: json_objects.append(obj)], from the line
    numbered [lineno] on. *)
Fixpoint for_obj_in_reader (lines : list str) (lineno : nat)
    (json_objects : list value) : M (list value) :=
  match lines with
  | [] => mret json_objects
  | line :: lines' =>
      obj ← jsonlines.Reader_read lineno line;
      for_obj_in_reader lines' (S lineno) (json_objects ++ [obj])
  end.

(** [json.dump(obj, f, indent=4)] *)
Definition dump (obj : value) (f : str) : M unit :=
  write f (iterencode obj).

Definition main (argv : list str) : M unit :=
  if negb (length argv =? 3)%nat then
    print usage;; sys_exit 1
  else
    input_file ← getitem argv 1;
    output_file ← getitem argv 2;
    json_objects ←
      with_ (jsonlines.open input_file) jsonlines.Reader_close
        (fun reader => for_obj_in_reader reader.2 1 []);
    with_ (open_w output_file) close
      (fun f => dump (VList json_objects) f);;
    print (combined input_file output_file).

(** Running the script in a world with nothing printed yet. *)
Definition fresh (fs : gmap (list N) (list N)) (nr nw : gset (list N))
  : world := World fs nr nw [] [].

End WithFloats.
End prep_json.


(** ** Line-delimited JSON, in the words of the specification *)

Module ldjson.
Section WithFloats.
Context {FM : FloatModel}.
Import json.

(** The lines the reader sees in a file with the given text. *)
Definition lines_of (content : str) : list str :=
  readlines (universal_newlines (utf_8_sig content)).

(** The JSON value the reader decodes from a line, if it is one. *)
Definition decoded (line : str) : option value :=
  loads (jsonlines.skip_initial line).

(** A line the reader accepts: it decodes to a value other than [None]. *)
Definition record (line : str) : Prop :=
  exists v, decoded line = Some v /\ v <> VNone.

(** The same, as a test. *)
Definition is_record (line : str) : bool :=
    match decoded line with
    | None | Some VNone => false
    | Some _ => true
    end.

(** A blank line: empty, or whitespace only. *)
Definition blank (line : str) : bool := forallb is_ws line.

Definition nonblank_lines (content : str) : list str :=
  filter (fun line => negb (blank line)) (lines_of content).

(** A well-formed input in the sense of the specification: each
    non-blank line is a JSON value on its own. *)
Definition well_formed (content : str) : Prop :=
  Forall (fun line => is_Some (loads line)) (nonblank_lines content).

(** The array in the JSON document at [path], if there is one. *)
Definition array_at (w : world) (path : str) : option (list value) :=
  match files w !! path ≫= loads with
  | Some (VList lst) => Some lst
  | _ => None
  end.

End WithFloats.
End ldjson.

(** * Notions used in the proofs *)

Section ProofNotions.
Context {FM : FloatModel}.
Import json os prep_json ldjson.

Definition all_digits (s : str) : Prop := Forall (fun c => is_digit c = true) s.

Definition nondigit_head (rest : str) : Prop :=
  match rest with
  | [] => True
  | c :: _ => is_digit c = false
  end.

(** What may follow the escape of a high surrogate for it to be read on
    its own. *)
Definition after_high_ok (t : str) : Prop :=
  match t with
  | b :: u :: s8 =>
      if bool_decide (b = 92 /\ u = 117) then
        match s8 with
        | l1 :: l2 :: l3 :: l4 :: _ =>
            match _decode_uXXXX l1 l2 l3 l4 with
            | Some uni2 => is_low_surrogate uni2 = false
            | None => False
            end
        | _ => False
        end
      else True
  | _ => True
  end.

(** The scanner on a text that starts like a number or a constant. *)
Definition scan_number (string : str) : option (value * str) :=
  match match_number string with
  | Some (integer, frac, exp, r) =>
      if bool_decide (is_Some frac \/ is_Some exp) then
        Some (VFloat (float_of_str
                        (integer ++ or_empty frac ++ or_empty exp)), r)
      else Some (VInt (int_of_str integer), r)
  | None =>
  match strip_prefix (lit "NaN") string with
  | Some r => Some (VFloat NaN, r)
  | None =>
  match strip_prefix (lit "Infinity") string with
  | Some r => Some (VFloat PosInf, r)
  | None =>
  match strip_prefix (lit "-Infinity") string with
  | Some r => Some (VFloat NegInf, r)
  | None => None
  end end end end.

(** Induction on a value, with the hypothesis on every element of a
    list and on every value of a dict. *)
Definition value_ind (P : value -> Prop)
    (HNone : P VNone) (HBool : forall b, P (VBool b))
    (HInt : forall z, P (VInt z)) (HFloat : forall f, P (VFloat f))
    (HStr : forall s, P (VStr s))
    (HList : forall lst, Forall P lst -> P (VList lst))
    (HDict : forall items, Forall (fun kv => P kv.2) items -> P (VDict items))
  : forall v, P v :=
  fix go (v : value) : P v :=
    match v with
    | VNone => HNone
    | VBool b => HBool b
    | VInt z => HInt z
    | VFloat f => HFloat f
    | VStr s => HStr s
    | VList lst =>
        HList lst
          ((fix all (l : list value) : Forall P l :=
              match l with
              | [] => List.Forall_nil P
              | x :: l' => List.Forall_cons P x l' (go x) (all l')
              end) lst)
    | VDict items =>
        HDict items
          ((fix all (l : list (str * value)) : Forall (fun kv => P kv.2) l :=
              match l with
              | [] => List.Forall_nil _
              | kv :: l' => List.Forall_cons _ kv l' (go kv.2) (all l')
              end) items)
    end.

Definition value_start (c : N) : Prop :=
  c = 34 \/ c = 91 \/ c = 123 \/ c = 110 \/ c = 116 \/ c = 102
  \/ c = 45 \/ c = 78 \/ c = 73 \/ is_digit c = true.

(** What the round trip asks of the scanner on one value. *)
Definition reads_back (scan : str -> option (value * str)) (level : nat)
    (v : value) : Prop :=
  forall rest, number_end rest ->
    scan (_iterencode v level ++ rest) = Some (v, rest).

Definition item_chunk (level : nat) (kv : str * value) : str :=
  py_encode_basestring_ascii kv.1 ++ _key_separator ++ _iterencode kv.2 level.

(** The text starts with an escape that decodes to a low surrogate. *)
Definition low_escape (s : str) : Prop :=
  exists l1 l2 l3 l4 t uni2,
    s = 92 :: 117 :: l1 :: l2 :: l3 :: l4 :: t
    /\ _decode_uXXXX l1 l2 l3 l4 = Some uni2
    /\ is_low_surrogate uni2 = true.

(** What [scanstring] maintains between the text decoded so far and the
    text still to be read. *)
Definition scan_inv (chunks s : str) : Prop :=
  str_ok chunks
  /\ (forall h, last chunks = Some h -> is_high_surrogate h = true ->
        ~ low_escape s).

Definition scan_sound (scan : str -> option (value * str)) : Prop :=
  forall s v r, valid_text s -> scan s = Some (v, r) ->
    wf v /\ valid_text r.

(** The items of a dict under construction. *)
Definition items_ok (d : list (str * value)) : Prop :=
  Forall (fun kv => str_ok kv.1 /\ wf kv.2) d.

(** A scanner that consumes at least one character when it succeeds. *)
Definition consumes (scan : str -> option (value * str)) : Prop :=
  forall s v r, scan s = Some (v, r) -> (length r < length s)%nat.

(** Two scanners that agree on every text no longer than [k]. *)
Definition agree (k : nat) (scan scan' : str -> option (value * str)) : Prop :=
  forall s, (length s <= k)%nat -> scan s = scan' s.

(** The reader loop without the world: it only returns or raises. *)
Fixpoint read_records (lines : list str) (lineno : nat)
    (json_objects : list value) : result (list value) :=
  match lines with
  | [] => Return json_objects
  | line :: lines' =>
      match decoded line with
      | None =>
          Raise (InvalidLineError invalid_json
                   (jsonlines.skip_initial line) lineno)
      | Some VNone =>
          Raise (InvalidLineError null_value
                   (jsonlines.skip_initial line) lineno)
      | Some obj => read_records lines' (S lineno) (json_objects ++ [obj])
      end
  end.

Definition add_trace (w : world) (evs : list event) : world :=
  World (files w) (no_read w) (no_write w) (stdout w) (trace w ++ evs).

(** The run of the script on two arguments, case by case. *)
Definition run_cases (input_file output_file : str) (w : world)
  : result unit * world :=
  match files w !! input_file with
  | None => (Raise (OSError input_file), w)
  | Some text =>
      if decide (input_file ∈ no_read w) then (Raise (OSError input_file), w)
      else
        let w1 := add_trace w [EvOpen input_file R; EvClose input_file] in
        match read_records (lines_of text) 1 [] with
        | Raise e => (Raise e, w1)
        | Return json_objects =>
            if decide (output_file ∈ no_write w) then
              (Raise (OSError output_file), w1)
            else
              let doc := iterencode (VList json_objects) in
              (Return tt,
               World (<[output_file := doc]> (files w)) (no_read w)
                 (no_write w)
                 (stdout w ++ [combined input_file output_file])
                 (trace w ++ [EvOpen input_file R; EvClose input_file;
                              EvOpen output_file W;
                              EvWrite output_file doc;
                              EvClose output_file]))
        end
  end.

(** The values the reader decodes from a sequence of lines. *)
Definition decoded_all (lines : list str) (vs : list value) : Prop :=
  Forall2 (fun line v => decoded line = Some v /\ v <> VNone) lines vs.

(** A sample text: an apostrophe stands for a double quote and a vertical
    bar for a newline. *)
Definition sample (s : string) : str :=
  map (fun c => if decide (c = 39) then 34
                else if decide (c = 124) then 10 else c) (lit s).


(** The arguments and the world of the sample runs. *)
Definition sample_argv : list str :=
  [lit "prep-json.py"; lit "in.jsonl"; lit "out.json"].

Definition sample_world (text : str) : world :=
  fresh {[ lit "in.jsonl" := text ]} ∅ ∅.

Definition sample_run (text : str) : result unit * world :=
  main (FM := DecimalFloat.model) sample_argv (sample_world text).

(** File operations that nest properly: a file is opened only when none
    is open, written only while it is open for writing, and closed before
    the end; [cur] is the file open at the start. *)
Fixpoint bracketed (cur : option (str * mode)) (evs : list event) : bool :=
  match evs with
  | [] => match cur with None => true | Some _ => false end
  | EvOpen path m :: evs' =>
      match cur with
      | None => bracketed (Some (path, m)) evs'
      | Some _ => false
      end
  | EvWrite path _ :: evs' =>
      match cur with
      | Some (f, W) => bool_decide (path = f) && bracketed cur evs'
      | _ => false
      end
  | EvClose path :: evs' =>
      match cur with
      | Some (f, _) => bool_decide (path = f) && bracketed None evs'
      | None => false
      end
  end.

(** A world in which [open] refuses to write at [path]. *)
Definition sample_world_read_only (text : str) : world :=
  fresh {[ lit "in.jsonl" := text ]} ∅ {[ lit "out.json" ]}.

(** A printable ASCII character: from the space to the tilde. *)
Definition printable (c : N) : bool := (32 <=? c) && (c <=? 126).

(** A text made of printable ASCII characters and line feeds. *)
Definition plain_text (s : str) : Prop :=
  Forall (fun c => printable c = true \/ c = 10) s.

(** The text with a carriage return before each line feed. *)
Definition to_crlf (s : str) : str :=
  flat_map (fun c => if decide (c = 10) then [13; 10] else [c]) s.

(** The world with other text in the file at [path]. *)
Definition with_file (w : world) (path text : str) : world :=
  World (<[path := text]> (files w)) (no_read w) (no_write w) (stdout w)
    (trace w).

(** A text that may follow a JSON value without changing how the value
    is read: the end of the text, or one that starts with whitespace. *)
Definition ws_head (tail : str) : Prop :=
  match tail with
  | [] => True
  | c :: _ => is_ws c = true
  end.

(** A scanner that reads the same value when [tail] is appended to the
    text, and leaves [tail] after what it left. *)
Definition appends (tail : str)
    (scan : str -> option (value * str)) : Prop :=
  forall s v r,
    scan s = Some (v, r) -> scan (s ++ tail) = Some (v, r ++ tail).

End ProofNotions.

(** * Proofs *)

Import json os prep_json ldjson.

(** ** Decimal digits *)

Lemma chars_uint_uint_chars u : chars_uint (uint_chars u) = u.
Proof. induction u; simpl; congruence. Qed.

Lemma is_digit_digit_char d : d < 10 -> is_digit (digit_char d) = true.
Proof. unfold is_digit, digit_char. intros. apply andb_true_iff. split; apply N.leb_le; lia. Qed.


Lemma all_digits_uint_chars u : all_digits (uint_chars u).
Proof. induction u; simpl; constructor; auto. Qed.

Lemma int_of_str_uint_chars u :
  int_of_str (uint_chars u) = Z.of_int (Decimal.Pos u).
Proof.
  destruct u; try reflexivity;
    cbv [int_of_str uint_chars]; fold uint_chars;
    (rewrite decide_False by (unfold digit_char; lia));
    cbv [chars_uint]; fold chars_uint; rewrite chars_uint_uint_chars;
    reflexivity.
Qed.

Lemma int_of_str_int_repr z : int_of_str (int_repr z) = z.
Proof.
  rewrite <- (DecimalZ.of_to z) at 2. unfold int_repr.
  destruct (Z.to_int z) as [u|u].
  - apply int_of_str_uint_chars.
  - unfold int_of_str. rewrite decide_True by reflexivity.
    now rewrite chars_uint_uint_chars.
Qed.

(** ** NUMBER_RE: what follows a match does not change it *)


Lemma number_end_nondigit rest : number_end rest -> nondigit_head rest.
Proof. destruct rest; simpl; tauto. Qed.

Lemma span_digits_app s ds r rest :
  span_digits s = (ds, r) -> nondigit_head rest ->
  span_digits (s ++ rest) = (ds, r ++ rest).
Proof.
  revert ds r. induction s as [|c s IH]; intros ds r Hs Hrest; simpl in *.
  - injection Hs as <- <-. destruct rest as [|c rest]; [done|].
    simpl in *. now rewrite Hrest.
  - destruct (is_digit c).
    + destruct (span_digits s) as [ds' r'] eqn:E.
      injection Hs as <- <-. now rewrite (IH _ _ eq_refl Hrest).
    + now injection Hs as <- <-.
Qed.

Lemma span_digits_all ds : all_digits ds -> span_digits ds = (ds, []).
Proof.
  induction 1 as [|c ds Hc _ IH]; simpl; [done|]. now rewrite Hc, IH.
Qed.

Lemma digits1_app s rest :
  nondigit_head rest ->
  digits1 (s ++ rest) =
    match digits1 s with
    | Some (ds, r) => Some (ds, r ++ rest)
    | None => None
    end.
Proof.
  intros Hrest. unfold digits1.
  destruct (span_digits s) as [ds r] eqn:E.
  rewrite (span_digits_app _ _ _ _ E Hrest).
  destruct ds; [|done].
  destruct s as [|c s]; simpl in E.
  - now injection E as <-.
  - destruct (is_digit c); [destruct (span_digits s)|]; now inversion E.
Qed.

Lemma integer_digits_app sign s i r rest :
  integer_digits sign s = Some (i, r) -> nondigit_head rest ->
  integer_digits sign (s ++ rest) = Some (i, r ++ rest).
Proof.
  intros Hs Hrest. unfold integer_digits in *.
  destruct s as [|d t]; [done|]. cbn [app].
  destruct (decide (d = 48)); [now injection Hs as <- <-|].
  destruct (is_digit d); [|done].
  destruct (span_digits t) as [ds r'] eqn:E. injection Hs as <- <-.
  now rewrite (span_digits_app _ _ _ _ E Hrest).
Qed.

Lemma integer_group_app s i r rest :
  integer_group s = Some (i, r) -> nondigit_head rest ->
  integer_group (s ++ rest) = Some (i, r ++ rest).
Proof.
  intros Hs Hrest. unfold integer_group in *.
  destruct s as [|c s]; [done|]. cbn [app].
  destruct (decide (c = 45)).
  - now apply integer_digits_app.
  - now apply (integer_digits_app [] (c :: s)).
Qed.

Lemma frac_group_app s fr r rest :
  frac_group s = (fr, r) -> number_end rest ->
  frac_group (s ++ rest) = (fr, r ++ rest).
Proof.
  intros Hs Hrest. pose proof (number_end_nondigit _ Hrest) as Hnd.
  unfold frac_group in *. destruct s as [|c s].
  - injection Hs as <- <-. simpl. destruct rest as [|c rest]; [done|].
    simpl in Hrest. rewrite decide_False by tauto. done.
  - cbn [app]. destruct (decide (c = 46)); [|now injection Hs as <- <-].
    rewrite (digits1_app _ _ Hnd).
    destruct (digits1 s) as [[ds r']|]; now injection Hs as <- <-.
Qed.

Lemma exp_group_app s ex r rest :
  exp_group s = (ex, r) -> number_end rest ->
  exp_group (s ++ rest) = (ex, r ++ rest).
Proof.
  intros Hs Hrest. pose proof (number_end_nondigit _ Hrest) as Hnd.
  unfold exp_group in *. destruct s as [|c s].
  - injection Hs as <- <-. simpl. destruct rest as [|c rest]; [done|].
    simpl in Hrest. rewrite bool_decide_eq_false_2 by tauto. done.
  - cbn [app]. destruct (bool_decide (c = 101 \/ c = 69));
      [|now injection Hs as <- <-].
    destruct s as [|g s].
    + cbn [app]. simpl in Hs. injection Hs as <- <-.
      destruct rest as [|g rest]; [done|]. simpl in Hrest, Hnd.
      rewrite bool_decide_eq_false_2 by tauto.
      unfold digits1. simpl. now rewrite Hnd.
    + cbn [app]. destruct (bool_decide (g = 45 \/ g = 43)).
      * rewrite (digits1_app _ _ Hnd).
        destruct (digits1 s) as [[ds r']|]; now injection Hs as <- <-.
      * change (g :: s ++ rest) with ((g :: s) ++ rest).
        rewrite (digits1_app (g :: s) _ Hnd).
        destruct (digits1 (g :: s)) as [[ds r']|]; now injection Hs as <- <-.
Qed.

Lemma match_number_app s i fr ex r rest :
  match_number s = Some (i, fr, ex, r) -> number_end rest ->
  match_number (s ++ rest) = Some (i, fr, ex, r ++ rest).
Proof.
  intros Hs Hrest. unfold match_number in *.
  destruct (integer_group s) as [[i' s1]|] eqn:Ei; [|done].
  rewrite (integer_group_app _ _ _ _ Ei (number_end_nondigit _ Hrest)).
  destruct (frac_group s1) as [fr' s2] eqn:Ef.
  rewrite (frac_group_app _ _ _ _ Ef Hrest).
  destruct (exp_group s2) as [ex' s3] eqn:Ee.
  rewrite (exp_group_app _ _ _ _ Ee Hrest).
  now injection Hs as <- <- <- <-.
Qed.

Lemma span_digits_eq s ds r : span_digits s = (ds, r) -> s = ds ++ r.
Proof.
  revert ds r. induction s as [|c s IH]; intros ds r; simpl.
  - now intros [= <- <-].
  - destruct (is_digit c); [|now intros [= <- <-]].
    destruct (span_digits s) as [ds' r']. intros [= <- <-].
    simpl. f_equal. now apply IH.
Qed.

Lemma digits1_eq s ds r : digits1 s = Some (ds, r) -> s = ds ++ r.
Proof.
  unfold digits1. destruct (span_digits s) as [[|d ds'] r'] eqn:E; [done|].
  intros [= <- <-]. now apply span_digits_eq.
Qed.

Lemma integer_digits_eq sign s i r :
  integer_digits sign s = Some (i, r) -> sign ++ s = i ++ r.
Proof.
  unfold integer_digits. destruct s as [|c t]; [done|].
  destruct (decide (c = 48)) as [->|_].
  - intros [= <- <-]. now rewrite <- app_assoc.
  - destruct (is_digit c); [|done].
    destruct (span_digits t) as [ds r'] eqn:E. intros [= <- <-].
    rewrite <- app_assoc. simpl. now rewrite (span_digits_eq _ _ _ E).
Qed.

Lemma match_number_eq s i fr ex r :
  match_number s = Some (i, fr, ex, r) ->
  s = i ++ or_empty fr ++ or_empty ex ++ r.
Proof.
  unfold match_number.
  destruct (integer_group s) as [[i' s1]|] eqn:Ei; [|done].
  destruct (frac_group s1) as [fr' s2] eqn:Ef.
  destruct (exp_group s2) as [ex' s3] eqn:Ee.
  intros [= <- <- <- <-].
  assert (s = i' ++ s1) as ->.
  { unfold integer_group in Ei. destruct s as [|c t]; [done|].
    destruct (decide (c = 45)) as [->|_].
    - now apply (integer_digits_eq [45]).
    - now apply (integer_digits_eq []). }
  f_equal.
  assert (s1 = or_empty fr' ++ s2) as ->.
  { unfold frac_group in Ef. destruct s1 as [|c t]; [now inversion Ef|].
    destruct (decide (c = 46)) as [->|_]; [|now inversion Ef].
    destruct (digits1 t) as [[ds r']|] eqn:E; inversion Ef; subst; [|done].
    simpl. f_equal. now apply digits1_eq. }
  f_equal.
  unfold exp_group in Ee. destruct s2 as [|c t]; [now inversion Ee|].
  destruct (bool_decide (c = 101 \/ c = 69)); [|now inversion Ee].
  destruct t as [|g t'].
  - simpl in Ee. now inversion Ee.
  - destruct (bool_decide (g = 45 \/ g = 43)).
    + destruct (digits1 t') as [[ds r']|] eqn:E; inversion Ee; subst; [|done].
      simpl. do 2 f_equal. now apply digits1_eq.
    + destruct (digits1 (g :: t')) as [[ds r']|] eqn:E; inversion Ee; subst;
        [|done].
      simpl. f_equal. now apply digits1_eq.
Qed.

(** ** [int.__repr__] is read back by the scanner *)

Lemma nzhead_not_D0 d u : nzhead d <> D0 u.
Proof. induction d; simpl; congruence. Qed.

Lemma to_uint_unorm p : unorm (Pos.to_uint p) = Pos.to_uint p.
Proof.
  rewrite <- DecimalPos.Unsigned.to_of, DecimalPos.Unsigned.of_to.
  reflexivity.
Qed.

Lemma to_uint_not_D0 p u : Pos.to_uint p <> D0 u.
Proof.
  intros E. pose proof (to_uint_unorm p) as H. rewrite E in H.
  unfold unorm in H. simpl in H.
  destruct (nzhead u) eqn:En; try (now apply (nzhead_not_D0 u u)).
  - injection H as <-. now apply (DecimalPos.Unsigned.to_uint_nonzero p).
  - rewrite <- En in H. now apply (nzhead_not_D0 u u).
Qed.

Lemma match_number_to_uint p sign :
  integer_digits sign (uint_chars (Pos.to_uint p))
  = Some (sign ++ uint_chars (Pos.to_uint p), []).
Proof.
  pose proof (to_uint_not_D0 p) as H0.
  pose proof (DecimalPos.Unsigned.to_uint_nonnil p) as Hn.
  pose proof (all_digits_uint_chars (Pos.to_uint p)) as Hd.
  destruct (Pos.to_uint p) as [|u|u|u|u|u|u|u|u|u|u]; try done;
    try (now destruct (H0 u));
    unfold integer_digits; cbn [uint_chars];
    (rewrite decide_False by (unfold digit_char; lia));
    (rewrite is_digit_digit_char by lia);
    inversion Hd; subst;
    now rewrite span_digits_all.
Qed.

Lemma match_number_int_repr z :
  match_number (int_repr z) = Some (int_repr z, None, None, []).
Proof.
  unfold int_repr. destruct z as [|p|p]; [reflexivity| |].
  - simpl Z.to_int. cbv iota. unfold match_number, integer_group.
    pose proof (match_number_to_uint p []) as H.
    destruct (uint_chars (Pos.to_uint p)) as [|c t] eqn:E; [done|].
    destruct (decide (c = 45)) as [->|_].
    + exfalso. pose proof (all_digits_uint_chars (Pos.to_uint p)) as Hd.
      rewrite E in Hd. now inversion Hd.
    + now rewrite H.
  - simpl Z.to_int. cbv iota. unfold match_number, integer_group.
    rewrite decide_True by done.
    now rewrite match_number_to_uint.
Qed.

Lemma int_repr_head z :
  exists c t, int_repr z = c :: t /\ (c = 45 \/ is_digit c = true).
Proof.
  pose proof (match_number_int_repr z) as H.
  destruct (int_repr z) as [|c t] eqn:E; [done|].
  exists c, t. split; [done|].
  unfold match_number, integer_group in H.
  destruct (decide (c = 45)); [now left|right].
  unfold integer_digits in H.
  destruct (decide (c = 48)) as [->|_]; [done|].
  now destruct (is_digit c).
Qed.

Ltac euclid := zify; Z.to_euclidean_division_equations; lia.

Ltac n_arith := 
  repeat match goal with
  | H : (_ <? _) = true |- _ => apply N.ltb_lt in H
  | H : (_ <? _) = false |- _ => apply N.ltb_ge in H
  | H : (_ <=? _) = true |- _ => apply N.leb_le in H
  | H : (_ <=? _) = false |- _ => apply N.leb_gt in H
  | H : _ && _ = true |- _ => apply andb_true_iff in H; destruct H
  end.

Lemma hex_val_hex_char d : d < 16 -> hex_val (hex_char d) = Some d.
Proof.
  intros Hd. unfold hex_val, hex_char.
  destruct (d <? 10) eqn:E; n_arith.
  - replace (48 <=? 48 + d) with true by (symmetry; apply N.leb_le; lia).
    replace (48 + d <=? 57) with true by (symmetry; apply N.leb_le; lia).
    simpl. f_equal. lia.
  - replace (87 + d <=? 57) with false by (symmetry; apply N.leb_gt; lia).
    rewrite andb_false_r.
    replace (97 <=? 87 + d) with true by (symmetry; apply N.leb_le; lia).
    replace (87 + d <=? 102) with true by (symmetry; apply N.leb_le; lia).
    simpl. f_equal. lia.
Qed.

Lemma decode_format_04x n :
  n < 65536 ->
  match format_04x n with
  | [h1; h2; h3; h4] => _decode_uXXXX h1 h2 h3 h4 = Some n
  | _ => False
  end.
Proof.
  intros Hn. unfold format_04x, _decode_uXXXX.
  rewrite !hex_val_hex_char by (apply N.mod_lt; lia).
  simpl. f_equal.
  assert (n / 4096 < 16) by (apply N.Div0.div_lt_upper_bound; lia).
  rewrite (N.mod_small (n / 4096)) by done.
  clear -Hn. euclid.
Qed.

(** ** Surrogate pairs *)

Lemma lor_high_low a b : b < 1024 -> N.lor (a * 1024) b = a * 1024 + b.
Proof.
  intros Hb.
  assert (Hland : N.land (a * 1024) b = 0).
  { apply N.bits_inj. intros m. rewrite N.land_spec, N.bits_0.
    destruct (N.lt_ge_cases m 10) as [Hm|Hm].
    - change 1024 with (2 ^ 10). now rewrite N.mul_pow2_bits_low.
    - destruct (N.eq_dec b 0) as [->|Hb0];
        [now rewrite N.bits_0, andb_false_r|].
      rewrite (N.bits_above_log2 b m), andb_false_r; [done|].
      apply N.lt_le_trans with 10; [|done].
      apply N.log2_lt_pow2; [lia|]. exact Hb. }
  rewrite <- N.lxor_lor by done. now rewrite N.add_nocarry_lxor.
Qed.

Lemma land_0x3ff n : N.land n 0x3ff = n mod 1024.
Proof. change 0x3ff with (N.ones 10). now rewrite N.land_ones. Qed.

Lemma surrogates_of n :
  n < 0x100000 ->
  let s1 := N.lor 0xd800 (N.land (N.shiftr n 10) 0x3ff) in
  let s2 := N.lor 0xdc00 (N.land n 0x3ff) in
  (is_high_surrogate s1 = true /\ s1 < 65536)
  /\ (is_low_surrogate s2 = true /\ s2 < 65536)
  /\ join_surrogates s1 s2 = 0x10000 + n.
Proof.
  intros Hn s1 s2.
  assert (Hq : n / 1024 < 1024) by (apply N.Div0.div_lt_upper_bound; lia).
  assert (Hr : n mod 1024 < 1024) by (apply N.mod_lt; lia).
  assert (E1 : s1 = 0xd800 + n / 1024).
  { unfold s1. rewrite land_0x3ff, N.shiftr_div_pow2.
    change (2 ^ 10) with 1024. rewrite N.mod_small by done.
    change 0xd800 with (54 * 1024). now apply lor_high_low. }
  assert (E2 : s2 = 0xdc00 + n mod 1024).
  { unfold s2. rewrite land_0x3ff.
    change 0xdc00 with (55 * 1024). now apply lor_high_low. }
  clearbody s1 s2. subst s1 s2.
  pose proof (N.div_mod n 1024 ltac:(lia)) as Hdm.
  unfold is_high_surrogate, is_low_surrogate, join_surrogates.
  rewrite N.shiftl_mul_pow2. change (2 ^ 10) with 1024.
  generalize dependent (n / 1024). generalize dependent (n mod 1024).
  intros r Hr q Hq Hdm.
  repeat split.
  - apply andb_true_iff. split; apply N.leb_le; lia.
  - lia.
  - apply andb_true_iff. split; apply N.leb_le; lia.
  - lia.
  - replace (0xd800 + q - 0xd800) with q by lia.
    replace (0xdc00 + r - 0xdc00) with r by lia.
    rewrite lor_high_low by done. lia.
Qed.

(** ** [scanstring] reads back what [py_encode_basestring_ascii] writes *)

Lemma scanstring_plain c t chunks :
  c <> 34 -> c <> 92 -> (c <? 32) = false ->
  scanstring (c :: t) chunks = scanstring t (chunks ++ [c]).
Proof.
  intros H1 H2 H3. simpl.
  rewrite !decide_False by done. now rewrite H3.
Qed.

Lemma scanstring_short esc char t chunks :
  esc <> 117 -> BACKSLASH esc = Some char ->
  scanstring (92 :: esc :: t) chunks = scanstring t (chunks ++ [char]).
Proof.
  intros H1 H2. simpl. rewrite decide_False by done. now rewrite H2.
Qed.


Lemma scanstring_u h1 h2 h3 h4 uni t chunks :
  _decode_uXXXX h1 h2 h3 h4 = Some uni ->
  (is_high_surrogate uni = true -> after_high_ok t) ->
  scanstring (92 :: 117 :: h1 :: h2 :: h3 :: h4 :: t) chunks
  = scanstring t (chunks ++ [uni]).
Proof.
  intros H1 H2. simpl. rewrite H1.
  destruct (is_high_surrogate uni); [|done].
  specialize (H2 eq_refl). unfold after_high_ok in H2.
  destruct t as [|b [|u s8]]; try done.
  destruct (bool_decide (b = 92 /\ u = 117)); [|done].
  destruct s8 as [|l1 [|l2 [|l3 [|l4 s12]]]]; try done.
  destruct (_decode_uXXXX l1 l2 l3 l4); [|done].
  now rewrite H2.
Qed.

Lemma scanstring_u_pair h1 h2 h3 h4 uni l1 l2 l3 l4 uni2 t chunks :
  _decode_uXXXX h1 h2 h3 h4 = Some uni ->
  is_high_surrogate uni = true ->
  _decode_uXXXX l1 l2 l3 l4 = Some uni2 ->
  is_low_surrogate uni2 = true ->
  scanstring (92 :: 117 :: h1 :: h2 :: h3 :: h4
                :: 92 :: 117 :: l1 :: l2 :: l3 :: l4 :: t) chunks
  = scanstring t (chunks ++ [join_surrogates uni uni2]).
Proof.
  intros H1 H2 H3 H4. simpl. now rewrite H1, H2, H3, H4.
Qed.

Lemma high_not_low uni : is_high_surrogate uni = true -> is_low_surrogate uni = false.
Proof.
  unfold is_high_surrogate, is_low_surrogate. intros H. n_arith.
  apply andb_false_iff. left. apply N.leb_gt. lia.
Qed.

Lemma ESCAPE_DCT_cases c e :
  ESCAPE_DCT c = Some e ->
  (exists esc, e = [92; esc] /\ esc <> 117 /\ BACKSLASH esc = Some c)
  \/ (e = 92 :: 117 :: format_04x c /\ c < 32).
Proof.
  unfold ESCAPE_DCT.
  repeat (case_decide; [subst; intros [= <-]; left; eexists; split;
                        [reflexivity|split; [done|reflexivity]]|]).
  destruct (c <? 32) eqn:E; [|done]. intros [= <-]. right. split; [done|].
  now apply N.ltb_lt.
Qed.

Lemma escape_cases c :
  c < 0x110000 ->
  (escape c = [c] /\ c <> 34 /\ c <> 92 /\ 32 <= c /\ c < 127)
  \/ (exists esc, escape c = [92; esc] /\ esc <> 117 /\ BACKSLASH esc = Some c)
  \/ (escape c = 92 :: 117 :: format_04x c /\ c < 65536)
  \/ (exists s1 s2,
        escape c = (92 :: 117 :: format_04x s1) ++ (92 :: 117 :: format_04x s2)
        /\ (is_high_surrogate s1 = true /\ s1 < 65536)
        /\ (is_low_surrogate s2 = true /\ s2 < 65536)
        /\ join_surrogates s1 s2 = c).
Proof.
  intros Hc. unfold escape, ESCAPE_ASCII.
  destruct (bool_decide (c = 92 \/ c = 34)) eqn:E1; simpl.
  - right. unfold replace.
    apply bool_decide_eq_true in E1.
    destruct (ESCAPE_DCT c) as [e|] eqn:E.
    + destruct (ESCAPE_DCT_cases _ _ E) as [(esc & -> & ?)|[-> ?]].
      * left. eauto.
      * right. left. split; [done|lia].
    + exfalso. unfold ESCAPE_DCT in E.
      destruct E1 as [-> | ->]; simpl in E; done.
  - apply bool_decide_eq_false in E1.
    destruct ((32 <=? c) && (c <=? 126)) eqn:E2; simpl.
    + left. n_arith. repeat split; try lia; tauto.
    + right. unfold replace.
      destruct (ESCAPE_DCT c) as [e|] eqn:E.
      * destruct (ESCAPE_DCT_cases _ _ E) as [(esc & -> & ?)|[-> ?]].
        -- left. eauto.
        -- right. left. split; [done|lia].
      * right. destruct (c <? 65536) eqn:E3.
        -- left. split; [done|]. now apply N.ltb_lt.
        -- right. apply N.ltb_ge in E3.
           pose proof (surrogates_of (c - 65536) ltac:(lia)) as H.
           cbv zeta in H. destruct H as (Hs1 & Hs2 & Hj).
           eexists _, _. split; [reflexivity|].
           split; [exact Hs1|]. split; [exact Hs2|].
           rewrite Hj. lia.
Qed.

Lemma decode_format_04x_app n t :
  n < 65536 ->
  exists h1 h2 h3 h4,
    format_04x n ++ t = h1 :: h2 :: h3 :: h4 :: t
    /\ _decode_uXXXX h1 h2 h3 h4 = Some n.
Proof.
  intros Hn. pose proof (decode_format_04x n Hn) as H.
  unfold format_04x in *. eexists _, _, _, _. split; [reflexivity|exact H].
Qed.

Lemma scanstring_escape c t chunks :
  c < 0x110000 ->
  (is_high_surrogate c = true -> after_high_ok t) ->
  scanstring (escape c ++ t) chunks = scanstring t (chunks ++ [c]).
Proof.
  intros Hc Hhigh.
  destruct (escape_cases c Hc)
    as [(-> & ? & ? & ? & ?)
       |[(esc & -> & ? & ?)
        |[(-> & ?)
         |(s1 & s2 & -> & [Hh1 Hb1] & [Hl2 Hb2] & Hj)]]].
  - apply scanstring_plain; try done. apply N.ltb_ge. lia.
  - now apply scanstring_short.
  - cbn [app].
    destruct (decode_format_04x_app c t ltac:(done)) as (h1&h2&h3&h4&->&Hd).
    now apply scanstring_u.
  - rewrite <- app_assoc. cbn [app].
    destruct (decode_format_04x_app s2 t ltac:(done)) as (l1&l2&l3&l4&->&Hd2).
    destruct (decode_format_04x_app s1
                (92 :: 117 :: l1 :: l2 :: l3 :: l4 :: t) ltac:(done))
      as (h1&h2&h3&h4&->&Hd1).
    rewrite (scanstring_u_pair _ _ _ _ _ _ _ _ _ _ _ _ Hd1 Hh1 Hd2 Hl2).
    now rewrite Hj.
Qed.

Lemma after_high_ok_escape l t :
  l < 0x110000 -> is_low_surrogate l = false -> after_high_ok (escape l ++ t).
Proof.
  intros Hl Hlow.
  destruct (escape_cases l Hl)
    as [(-> & ? & ? & ? & ?)
       |[(esc & -> & ? & ?)
        |[(-> & ?)
         |(s1 & s2 & -> & [Hh1 Hb1] & [Hl2 Hb2] & Hj)]]].
  - cbn [app]. unfold after_high_ok. destruct t; [done|].
    rewrite bool_decide_eq_false_2; [done|tauto].
  - cbn [app]. unfold after_high_ok.
    rewrite bool_decide_eq_false_2; [done|tauto].
  - cbn [app].
    destruct (decode_format_04x_app l t ltac:(done)) as (h1&h2&h3&h4&->&Hd).
    unfold after_high_ok. rewrite bool_decide_eq_true_2 by done.
    now rewrite Hd.
  - rewrite <- app_assoc. cbn [app].
    destruct (decode_format_04x_app s1
               (92 :: 117 :: format_04x s2 ++ t) ltac:(done))
      as (h1&h2&h3&h4&->&Hd).
    unfold after_high_ok. rewrite bool_decide_eq_true_2 by done.
    rewrite Hd. now apply high_not_low.
Qed.

Lemma after_high_ok_quote rest : after_high_ok (34 :: rest).
Proof.
  unfold after_high_ok. destruct rest; [done|].
  rewrite bool_decide_eq_false_2; [done|]. intros [? _]. done.
Qed.

Lemma scanstring_flat_map_escape s chunks rest :
  str_ok s ->
  scanstring (flat_map escape s ++ 34 :: rest) chunks = Some (chunks ++ s, rest).
Proof.
  intros [Hlt Hpair]. revert chunks.
  induction s as [|c s IH]; intros chunks.
  - simpl. now rewrite app_nil_r.
  - cbn [flat_map]. rewrite <- app_assoc.
    inversion Hlt as [|? ? Hc Hlt']; subst.
    destruct Hpair as [Hcs Hpair'].
    rewrite scanstring_escape; [| done |].
    + rewrite (IH Hlt' Hpair'). now rewrite <- app_assoc.
    + intros Hhigh. destruct s as [|l s'].
      * apply after_high_ok_quote.
      * cbn [flat_map]. rewrite <- app_assoc.
        inversion Hlt' as [|? ? Hl _]; subst.
        apply after_high_ok_escape; [done|].
        destruct (is_low_surrogate l) eqn:El; [|done].
        exfalso. now apply Hcs.
Qed.

Lemma scanstring_encode_basestring s rest :
  str_ok s ->
  exists body,
    py_encode_basestring_ascii s ++ rest = 34 :: body
    /\ scanstring body [] = Some (s, rest).
Proof.
  intros Hs. unfold py_encode_basestring_ascii.
  exists (flat_map escape s ++ 34 :: rest). split.
  - cbn [app]. now rewrite <- app_assoc.
  - now rewrite scanstring_flat_map_escape.
Qed.

Section Scan.
Context {FM : FloatModel}.

Lemma strip_prefix_app p r : strip_prefix p (p ++ r) = Some r.
Proof. induction p as [|x p IH]; simpl; [done|]. now rewrite decide_True. Qed.

Lemma strip_prefix_head_ne x p c t :
  x <> c -> strip_prefix (x :: p) (c :: t) = None.
Proof. intros H. simpl. now rewrite decide_False. Qed.


Lemma _scan_once_number fuel c t :
  c = 45 \/ is_digit c = true \/ c = 78 \/ c = 73 ->
  _scan_once (S fuel) (c :: t) = scan_number (c :: t).
Proof.
  intros Hc.
  assert (c <> 34 /\ c <> 123 /\ c <> 91 /\ c <> 110 /\ c <> 116 /\ c <> 102)
    as (?&?&?&?&?&?).
  { unfold is_digit in Hc.
    destruct Hc as [->|[Hc|[->| ->]]]; try done. n_arith. lia. }
  cbn [_scan_once]. rewrite !decide_False by done.
  change (lit "null") with [110; 117; 108; 108].
  change (lit "true") with [116; 114; 117; 101].
  change (lit "false") with [102; 97; 108; 115; 101].
  rewrite !strip_prefix_head_ne by done.
  reflexivity.
Qed.

Lemma scan_int fuel z rest :
  number_end rest ->
  _scan_once (S fuel) (int_repr z ++ rest) = Some (VInt z, rest).
Proof.
  intros Hrest.
  destruct (int_repr_head z) as (c & t & E & Hc).
  pose proof (match_number_app _ _ _ _ _ _ (match_number_int_repr z) Hrest)
    as Hm.
  rewrite E in Hm |- *. cbn [app] in *.
  rewrite _scan_once_number by tauto.
  unfold scan_number. rewrite Hm.
  rewrite bool_decide_eq_false_2.
  - now rewrite <- E, int_of_str_int_repr.
  - intros [[? ?]|[? ?]]; done.
Qed.

Lemma match_number_head s i fr ex r :
  match_number s = Some (i, fr, ex, r) ->
  exists c t, s = c :: t /\ (c = 45 \/ is_digit c = true).
Proof.
  unfold match_number, integer_group. destruct s as [|c t]; [done|].
  intros H. exists c, t. split; [done|].
  destruct (decide (c = 45)); [now left|right].
  unfold integer_digits in H.
  destruct (decide (c = 48)) as [->|_]; [done|].
  now destruct (is_digit c).
Qed.

Context {FL : FloatLaws FM}.

Lemma scan_float fuel f rest :
  decodable_float f -> number_end rest ->
  _scan_once (S fuel) (floatstr f ++ rest) = Some (VFloat f, rest).
Proof.
  intros Hf Hrest. unfold floatstr.
  destruct (float_eqb f f) eqn:E1; cbn [negb].
  2:{ rewrite (nan_law f Hf E1).
      change (lit "NaN") with [78; 97; 78]. cbn [app].
      rewrite _scan_once_number by tauto. reflexivity. }
  destruct (float_eqb f PosInf) eqn:E2.
  { rewrite (posinf_law f Hf E1 E2).
    change (lit "Infinity") with [73; 110; 102; 105; 110; 105; 116; 121].
    cbn [app]. rewrite _scan_once_number by tauto.
    unfold scan_number.
    change (lit "Infinity") with [73; 110; 102; 105; 110; 105; 116; 121].
    change (73 :: 110 :: 102 :: 105 :: 110 :: 105 :: 116 :: 121 :: rest)
      with ([73; 110; 102; 105; 110; 105; 116; 121] ++ rest).
    rewrite strip_prefix_app. reflexivity. }
  destruct (float_eqb f NegInf) eqn:E3.
  { rewrite (neginf_law f Hf E1 E2 E3).
    change (lit "-Infinity")
      with [45; 73; 110; 102; 105; 110; 105; 116; 121].
    cbn [app]. rewrite _scan_once_number by tauto.
    unfold scan_number.
    change (lit "-Infinity")
      with [45; 73; 110; 102; 105; 110; 105; 116; 121].
    change (45 :: 73 :: 110 :: 102 :: 105 :: 110 :: 105 :: 116 :: 121 :: rest)
      with ([45; 73; 110; 102; 105; 110; 105; 116; 121] ++ rest).
    rewrite strip_prefix_app. reflexivity. }
  destruct (repr_law f Hf E1 E2 E3) as [(i & fr & ex & Hm & Hfe) Hback].
  pose proof (match_number_eq _ _ _ _ _ Hm) as Htext.
  rewrite app_nil_r in Htext.
  destruct (match_number_head _ _ _ _ _ Hm) as (c & t & E & Hc).
  pose proof (match_number_app _ _ _ _ _ _ Hm Hrest) as Hm'.
  rewrite E in Hm' |- *. cbn [app] in *.
  rewrite _scan_once_number by tauto.
  unfold scan_number. rewrite Hm'.
  rewrite bool_decide_eq_true_2 by done.
  now rewrite <- Htext, Hback.
Qed.
End Scan.

Section Encoded.
Context {FM : FloatModel}.


(** *** Whitespace *)

Lemma skip_ws_nonws c t : is_ws c = false -> skip_ws (c :: t) = c :: t.
Proof. intros H. simpl. now rewrite H. Qed.

Lemma skip_ws_all p t :
  Forall (fun c => is_ws c = true) p -> skip_ws (p ++ t) = skip_ws t.
Proof. induction 1 as [|c p Hc _ IH]; simpl; [done|]. now rewrite Hc. Qed.

Lemma newline_indent_ws level :
  Forall (fun c => is_ws c = true) (newline_indent level).
Proof.
  unfold newline_indent. constructor; [done|].
  induction level as [|level IH]; simpl; [constructor|].
  repeat (constructor; [done|]). exact IH.
Qed.

Lemma skip_ws_indent level t :
  skip_ws (newline_indent level ++ t) = skip_ws t.
Proof. apply skip_ws_all, newline_indent_ws. Qed.

Lemma number_end_indent level t : number_end (newline_indent level ++ t).
Proof. unfold newline_indent. cbn [app]. unfold number_end. done. Qed.

Lemma number_end_comma t : number_end (44 :: t).
Proof. unfold number_end. done. Qed.

(** *** How an encoded value starts *)


Lemma value_start_nonws c : value_start c -> is_ws c = false /\ c <> 93 /\ c <> 0xfeff.
Proof.
  unfold value_start, is_ws, is_digit. intros H.
  repeat (destruct H as [->|H]; [done|]).
  n_arith. split; [|lia].
  apply bool_decide_eq_false. lia.
Qed.

Context {FL : FloatLaws FM}.

Lemma floatstr_start f :
  decodable_float f -> exists c t, floatstr f = c :: t /\ value_start c.
Proof.
  intros Hf. unfold floatstr, value_start.
  destruct (float_eqb f f) eqn:E1; cbn [negb].
  2:{ eexists _, _. split; [reflexivity|]. tauto. }
  destruct (float_eqb f PosInf) eqn:E2.
  { eexists _, _. split; [reflexivity|]. tauto. }
  destruct (float_eqb f NegInf) eqn:E3.
  { eexists _, _. split; [reflexivity|]. tauto. }
  destruct (repr_law f Hf E1 E2 E3) as [(i & fr & ex & Hm & _) _].
  destruct (match_number_head _ _ _ _ _ Hm) as (c & t & E & Hc).
  exists c, t. split; [done|]. tauto.
Qed.

Lemma _iterencode_start v level :
  wf v -> exists c t, _iterencode v level = c :: t /\ value_start c.
Proof.
  unfold value_start.
  intros Hv. destruct Hv as [|b|z|f Hf|s Hs|lst Hl|items Hk Hi]; cbn [_iterencode].
  - eexists _, _. split; [reflexivity|]. tauto.
  - destruct b; eexists _, _; (split; [reflexivity|]); tauto.
  - destruct (int_repr_head z) as (c & t & E & Hc).
    exists c, t. split; [done|]. tauto.
  - now apply floatstr_start.
  - eexists _, _. split; [reflexivity|]. tauto.
  - destruct lst; eexists _, _; (split; [reflexivity|]); tauto.
  - destruct items; eexists _, _; (split; [reflexivity|]); tauto.
Qed.

(** *** Dicts *)

Lemma dict_setitem_fresh d key v :
  key ∉ d.*1 -> dict_setitem d key v = d ++ [(key, v)].
Proof.
  induction d as [|[k x] d IH]; intros Hk; simpl; [done|].
  apply not_elem_of_cons in Hk as [Hne Hk].
  rewrite decide_False by (simpl in Hne; congruence).
  now rewrite IH.
Qed.

Lemma fold_dict_setitem items d :
  NoDup (d ++ items).*1 ->
  fold_left (fun d kv => dict_setitem d kv.1 kv.2) items d = d ++ items.
Proof.
  revert d. induction items as [|[k v] items IH]; intros d Hnd; simpl.
  - now rewrite app_nil_r.
  - rewrite dict_setitem_fresh.
    + rewrite IH; rewrite <- app_assoc; [done|exact Hnd].
    + rewrite fmap_app in Hnd. apply NoDup_app in Hnd as (_ & Hd & _).
      intros Hin. apply (Hd k Hin). simpl. left.
Qed.

Lemma dict_of_pairs_NoDup items :
  NoDup items.*1 -> dict_of_pairs items = items.
Proof. intros H. unfold dict_of_pairs. now rewrite fold_dict_setitem. Qed.
End Encoded.

Section RoundTrip.
Context {FM : FloatModel} {FL : FloatLaws FM}.

Lemma _scan_once_string fuel t :
  _scan_once (S fuel) (34 :: t)
  = '(s, r) ← scanstring t []; Some (VStr s, r).
Proof. reflexivity. Qed.

Lemma _scan_once_array fuel t :
  _scan_once (S fuel) (91 :: t) = JSONArray (_scan_once fuel) t.
Proof. reflexivity. Qed.

Lemma _scan_once_object fuel t :
  _scan_once (S fuel) (123 :: t) = JSONObject (_scan_once fuel) t.
Proof. reflexivity. Qed.


Lemma join_cons2 (sep c : str) d (chunks : list str) :
  join sep (c :: d :: chunks) = c ++ sep ++ join sep (d :: chunks).
Proof. reflexivity. Qed.

Lemma JSONArray_loop_encoded scan level level' xs :
  Forall wf xs -> Forall (reads_back scan level) xs -> xs <> [] ->
  forall n acc tail, (length xs <= n)%nat ->
    JSONArray_loop scan n
      (join (_item_separator ++ newline_indent level)
            (map (fun v => _iterencode v level) xs)
         ++ newline_indent level' ++ 93 :: tail) acc
    = Some (VList (acc ++ xs), tail).
Proof.
  intros Hwf Hrb. induction xs as [|x xs IH]; [done|]. intros _ n acc tail Hn.
  inversion Hwf as [|? ? Hx Hwf']; subst.
  inversion Hrb as [|? ? Hrx Hrb']; subst.
  destruct n as [|n]; [simpl in Hn; lia|]. cbn [JSONArray_loop].
  destruct xs as [|y xs].
  - cbn [map join]. rewrite Hrx by apply number_end_indent.
    cbv beta iota delta [mbind option_bind].
    rewrite skip_ws_indent, skip_ws_nonws by done.
    now rewrite decide_True.
  - cbn [map]. rewrite join_cons2. rewrite <- !app_assoc.
    unfold _item_separator at 1. cbn [app].
    rewrite Hrx by apply number_end_comma.
    cbv beta iota delta [mbind option_bind].
    rewrite skip_ws_nonws by done.
    rewrite decide_False, decide_True by done.
    rewrite skip_ws_indent.
    specialize (IH Hwf' Hrb' ltac:(done) n (acc ++ [x]) tail
                   ltac:(simpl in *; lia)).
    cbn [map] in IH. rewrite <- app_assoc in IH. cbn [app] in IH.
    destruct (_iterencode_start y level ltac:(now inversion Hwf'))
      as (c & t & E & Hc).
    destruct (value_start_nonws c Hc) as (Hws & _ & _).
    match goal with
    | |- JSONArray_loop _ _ (skip_ws ?s) _ = _ =>
        assert (Hs : exists t', s = c :: t')
    end.
    { destruct xs; cbn [map join]; rewrite ?join_cons2, E; eauto. }
    destruct Hs as [t' Hs]. rewrite Hs, skip_ws_nonws by done.
    rewrite <- Hs. exact IH.
Qed.


Lemma item_chunk_app level k v r :
  item_chunk level (k, v) ++ r
  = 34 :: flat_map escape k ++ 34 :: 58 :: 32 :: _iterencode v level ++ r.
Proof.
  unfold item_chunk, py_encode_basestring_ascii, _key_separator.
  cbn [fst snd app]. now rewrite <- !app_assoc.
Qed.

Lemma JSONObject_loop_step scan level n k v r acc :
  str_ok k -> wf v -> reads_back scan level v -> number_end r ->
  JSONObject_loop scan (S n)
    (flat_map escape k ++ 34 :: 58 :: 32 :: _iterencode v level ++ r) acc
  = match skip_ws r with
    | nextchar :: s4 =>
        if decide (nextchar = 125) then
          Some (VDict (dict_of_pairs (acc ++ [(k, v)])), s4)
        else if decide (nextchar = 44) then
          match skip_ws s4 with
          | quote :: s5 =>
              if decide (quote = 34) then
                JSONObject_loop scan n s5 (acc ++ [(k, v)])
              else None
          | [] => None
          end
        else None
    | [] => None
    end.
Proof.
  intros Hk Hv Hrv Hr. cbn [JSONObject_loop].
  rewrite scanstring_flat_map_escape by done.
  cbv beta iota delta [mbind option_bind].
  rewrite skip_ws_nonws by done. rewrite decide_True by done.
  change (skip_ws (32 :: ?s)) with (skip_ws s).
  destruct (_iterencode_start v level Hv) as (c & t & E & Hc).
  destruct (value_start_nonws c Hc) as (Hws & _ & _).
  rewrite E. cbn [app]. rewrite skip_ws_nonws by done.
  change (c :: t ++ ?r) with ((c :: t) ++ r). rewrite <- E.
  rewrite Hrv by done. reflexivity.
Qed.

Lemma JSONObject_loop_encoded scan level level' items :
  Forall (fun kv => str_ok kv.1 /\ wf kv.2) items ->
  Forall (fun kv => reads_back scan level kv.2) items -> items <> [] ->
  forall n acc tail, (length items <= n)%nat ->
    exists body,
      join (_item_separator ++ newline_indent level)
           (map (item_chunk level) items)
        ++ newline_indent level' ++ 125 :: tail = 34 :: body
      /\ JSONObject_loop scan n body acc
         = Some (VDict (dict_of_pairs (acc ++ items)), tail).
Proof.
  intros Hwf Hrb. induction items as [|[k v] items IH]; [done|].
  intros _ n acc tail Hn.
  inversion Hwf as [|? ? [Hk Hv] Hwf']; subst.
  inversion Hrb as [|? ? Hrv Hrb']; subst. cbn [fst snd] in *.
  destruct n as [|n]; [simpl in Hn; lia|].
  destruct items as [|kv items].
  - cbn [map join]. rewrite item_chunk_app.
    eexists. split; [reflexivity|].
    rewrite JSONObject_loop_step by (done || apply number_end_indent).
    rewrite skip_ws_indent, skip_ws_nonws by done.
    now rewrite decide_True.
  - specialize (IH Hwf' Hrb' ltac:(done) n (acc ++ [(k, v)]) tail
                   ltac:(simpl in *; lia)).
    destruct IH as (body' & Hbody' & IH).
    cbn [map]. rewrite join_cons2. cbn [map] in Hbody'.
    rewrite <- !app_assoc. rewrite Hbody'. rewrite item_chunk_app.
    eexists. split; [reflexivity|].
    unfold _item_separator at 1. cbn [app].
    rewrite JSONObject_loop_step by (done || apply number_end_comma).
    rewrite skip_ws_nonws by done.
    rewrite decide_False, decide_True by done.
    rewrite skip_ws_indent, skip_ws_nonws by done.
    rewrite decide_True by done.
    now rewrite <- app_assoc in IH.
Qed.

Lemma join_length sep (chunks : list str) :
  Forall (fun c => c <> []) chunks ->
  (length chunks <= length (join sep chunks))%nat.
Proof.
  induction 1 as [|c chunks Hc Hcs IH]; [done|].
  destruct chunks as [|d chunks].
  - simpl. destruct c; [done|simpl; lia].
  - rewrite join_cons2, !length_app. destruct c; [done|].
    simpl in *. lia.
Qed.

Theorem scan_once_iterencode v :
  wf v ->
  forall level fuel, (depth v < fuel)%nat ->
    reads_back (_scan_once fuel) level v.
Proof.
  induction v as [|b|z|f|s|lst IH|items IH] using value_ind;
    intros Hwf level fuel Hfuel rest Hrest;
    (destruct fuel as [|fuel]; [lia|]); cbn [_iterencode].
  - reflexivity.
  - destruct b; reflexivity.
  - now apply scan_int.
  - inversion Hwf; subst. now apply scan_float.
  - inversion Hwf; subst.
    destruct (scanstring_encode_basestring s rest ltac:(done))
      as (body & -> & Hbody).
    rewrite _scan_once_string, Hbody. reflexivity.
  - inversion Hwf as [| | | | |? Hl|]; subst.
    destruct lst as [|x lst]; [reflexivity|].
    unfold _iterencode_list. cbn [app]. rewrite <- !app_assoc.
    change ([93] ++ rest) with (93 :: rest).
    rewrite _scan_once_array. unfold JSONArray.
    rewrite skip_ws_indent.
    cbn [depth] in Hfuel.
    assert (Hrb : Forall (reads_back (_scan_once fuel) (S level)) (x :: lst)).
    { apply Forall_forall. intros y Hy.
      rewrite Forall_forall in IH, Hl.
      apply IH; [done|now apply Hl|].
      assert (depth y <= max_list (map depth (x :: lst)))%nat; [|lia].
      apply max_list_elem_of_le. now apply list_elem_of_fmap_2. }
    destruct (_iterencode_start x (S level) ltac:(now inversion Hl))
      as (c & t & E & Hc).
    destruct (value_start_nonws c Hc) as (Hws & H93 & _).
    match goal with
    | |- context [skip_ws ?s] => assert (Hs : exists t', s = c :: t')
    end.
    { destruct lst; cbn [map join]; rewrite ?join_cons2, E; eauto. }
    destruct Hs as [t' Hs]. rewrite Hs, skip_ws_nonws by done.
    rewrite decide_False by done. rewrite <- Hs.
    rewrite (JSONArray_loop_encoded _ _ _ _ Hl Hrb); [done|done|].
    rewrite length_app.
    pose proof (join_length (_item_separator ++ newline_indent (S level))
                  (map (fun v => _iterencode v (S level)) (x :: lst))) as Hj.
    rewrite length_map in Hj.
    assert (length (x :: lst)
            <= length (join (_item_separator ++ newline_indent (S level))
                        (map (fun v => _iterencode v (S level)) (x :: lst))))%nat;
      [|lia].
    apply Hj. apply Forall_forall. intros e He.
    apply list_elem_of_fmap in He as (y & -> & Hy).
    rewrite Forall_forall in Hl.
    destruct (_iterencode_start y (S level) (Hl y Hy)) as (?&?&->&_). done.
  - inversion Hwf as [| | | | | |? Hnd Hi]; subst.
    destruct items as [|kv items]; [reflexivity|].
    unfold _iterencode_dict. cbn [app]. rewrite <- !app_assoc.
    change ([125] ++ rest) with (125 :: rest).
    rewrite _scan_once_object. unfold JSONObject.
    rewrite skip_ws_indent.
    cbn [depth] in Hfuel.
    assert (Hrb : Forall (fun kv => reads_back (_scan_once fuel) (S level) kv.2)
                    (kv :: items)).
    { apply Forall_forall. intros y Hy.
      rewrite Forall_forall in IH, Hi.
      apply IH; [done|now apply Hi|].
      assert (depth y.2
              <= max_list (map (fun kv => depth kv.2) (kv :: items)))%nat;
        [|lia].
      apply max_list_elem_of_le.
      now apply (list_elem_of_fmap_2 (fun kv => depth kv.2)). }
    change (map (fun kv => py_encode_basestring_ascii kv.1
                             ++ _key_separator ++ _iterencode kv.2 (S level))
              (kv :: items))
      with (map (item_chunk (S level)) (kv :: items)).
    match goal with
    | |- context [skip_ws ?s] =>
        destruct (JSONObject_loop_encoded _ (S level) level (kv :: items)
                    Hi Hrb ltac:(done) (length s - 1)%nat [] rest)
          as (body & Hbody & Hloop)
    end.
    { rewrite !length_app.
      pose proof (join_length (_item_separator ++ newline_indent (S level))
                    (map (item_chunk (S level)) (kv :: items))) as Hj.
      rewrite length_map in Hj.
      assert (length (kv :: items)
              <= length (join (_item_separator ++ newline_indent (S level))
                          (map (item_chunk (S level)) (kv :: items))))%nat.
      { apply Hj. apply Forall_forall. intros e He.
        apply list_elem_of_fmap in He as (y & -> & Hy). done. }
      assert (1 <= length (newline_indent level))%nat
        by (unfold newline_indent; simpl; lia).
      cbn [length] in *. lia. }
    rewrite Hbody in Hloop |- *.
    rewrite skip_ws_nonws by done.
    rewrite decide_False, decide_True by done.
    replace (length (34%N :: body) - 1)%nat with (length body) in Hloop
      by (simpl; lia).
    rewrite Hloop. cbn [app]. now rewrite dict_of_pairs_NoDup.
Qed.
End RoundTrip.

Section Loads.
Context {FM : FloatModel} {FL : FloatLaws FM}.

Lemma join_elem_length sep (chunks : list str) c :
  c ∈ chunks -> (length c <= length (join sep chunks))%nat.
Proof.
  induction chunks as [|d chunks IH]; [by intros ?%elem_of_nil|].
  intros [->|Hin]%elem_of_cons.
  - destruct chunks; [done|]. rewrite join_cons2, length_app. lia.
  - destruct chunks as [|e chunks]; [by apply elem_of_nil in Hin|].
    rewrite join_cons2, !length_app. specialize (IH Hin). lia.
Qed.

Lemma depth_le_length v level :
  (depth v <= length (_iterencode v level))%nat.
Proof.
  revert level.
  induction v as [|b|z|f|s|lst IH|items IH] using value_ind;
    intros level; cbn [depth _iterencode]; try lia.
  - destruct lst as [|x lst]; [simpl; lia|].
    unfold _iterencode_list. rewrite !length_app. cbn [length].
    pose proof (max_list_elem_of (map depth (x :: lst)) ltac:(done)) as Hm.
    apply list_elem_of_fmap in Hm as (y & -> & Hy).
    rewrite Forall_forall in IH. specialize (IH y Hy (S level)).
    pose proof (join_elem_length
                  (_item_separator ++ newline_indent (S level))
                  (map (fun v => _iterencode v (S level)) (x :: lst))
                  (_iterencode y (S level))
                  ltac:(now apply (list_elem_of_fmap_2
                                     (fun v => _iterencode v (S level))))).
    lia.
  - destruct items as [|kv items]; [simpl; lia|].
    unfold _iterencode_dict. rewrite !length_app. cbn [length].
    pose proof (max_list_elem_of
                  (map (fun kv => depth kv.2) (kv :: items)) ltac:(done))
      as Hm.
    apply list_elem_of_fmap in Hm as (y & -> & Hy).
    rewrite Forall_forall in IH. specialize (IH y Hy (S level)).
    pose proof (join_elem_length
                  (_item_separator ++ newline_indent (S level))
                  (map (fun kv => py_encode_basestring_ascii kv.1
                                    ++ _key_separator
                                    ++ _iterencode kv.2 (S level))
                       (kv :: items))
                  _ (list_elem_of_fmap_2 _ _ _ Hy)) as Hj.
    cbv beta in Hj. rewrite !length_app in Hj. lia.
Qed.

(** [json.loads] reads back what [json.dump] with [indent=4] writes. *)
Theorem loads_iterencode v : wf v -> loads (iterencode v) = Some v.
Proof.
  intros Hv. unfold loads, iterencode.
  destruct (_iterencode_start v 0 Hv) as (c & t & E & Hc).
  destruct (value_start_nonws c Hc) as (Hws & _ & Hbom).
  assert (startswith (_iterencode v 0) [0xfeff] = false) as ->.
  { rewrite E. unfold startswith. apply bool_decide_eq_false.
    rewrite strip_prefix_head_ne by done. now intros [? ?]. }
  unfold decode, raw_decode.
  assert (skip_ws (_iterencode v 0) = _iterencode v 0) as ->
    by (rewrite E; now apply skip_ws_nonws).
  pose proof (scan_once_iterencode v Hv 0 (S (length (_iterencode v 0)))
                ltac:(pose proof (depth_le_length v 0); lia) [] I) as H.
  rewrite app_nil_r in H. rewrite H. reflexivity.
Qed.
End Loads.

(** ** What the decoder returns is well formed *)

Lemma hex_val_lt c d : hex_val c = Some d -> d < 16.
Proof.
  unfold hex_val.
  destruct ((48 <=? c) && (c <=? 57)) eqn:E1; [intros [= <-]; n_arith; lia|].
  destruct ((97 <=? c) && (c <=? 102)) eqn:E2; [intros [= <-]; n_arith; lia|].
  destruct ((65 <=? c) && (c <=? 70)) eqn:E3; [intros [= <-]; n_arith; lia|].
  done.
Qed.

Lemma _decode_uXXXX_lt h1 h2 h3 h4 uni :
  _decode_uXXXX h1 h2 h3 h4 = Some uni -> uni < 65536.
Proof.
  unfold _decode_uXXXX.
  destruct (hex_val h1) as [a|] eqn:E1; [|done].
  destruct (hex_val h2) as [b|] eqn:E2; [|done].
  destruct (hex_val h3) as [c|] eqn:E3; [|done].
  destruct (hex_val h4) as [d|] eqn:E4; [|done].
  apply hex_val_lt in E1, E2, E3, E4. simpl. intros [= <-]. lia.
Qed.

Lemma join_surrogates_range uni uni2 :
  is_high_surrogate uni = true -> is_low_surrogate uni2 = true ->
  0x10000 <= join_surrogates uni uni2 < 0x110000.
Proof.
  unfold is_high_surrogate, is_low_surrogate, join_surrogates.
  intros H1 H2. n_arith.
  rewrite N.shiftl_mul_pow2. change (2 ^ 10) with 1024.
  rewrite lor_high_low by lia. lia.
Qed.

Lemma scalar_not_surrogate c :
  is_scalar c = true ->
  c < 0x110000 /\ is_high_surrogate c = false /\ is_low_surrogate c = false.
Proof.
  unfold is_scalar, is_high_surrogate, is_low_surrogate. intros H.
  apply orb_true_iff in H as [H|H]; n_arith.
  - split; [lia|]. split; apply andb_false_iff; left; apply N.leb_gt; lia.
  - split; [lia|]. split; apply andb_false_iff; right; apply N.leb_gt; lia.
Qed.

Lemma BACKSLASH_plain esc char :
  BACKSLASH esc = Some char ->
  char < 0x110000 /\ is_high_surrogate char = false
  /\ is_low_surrogate char = false.
Proof.
  unfold BACKSLASH.
  repeat (case_decide; [intros [= <-]; done|]). done.
Qed.

Lemma no_surrogate_pair_snoc chunks c :
  no_surrogate_pair chunks ->
  (forall h, last chunks = Some h ->
     ~ (is_high_surrogate h = true /\ is_low_surrogate c = true)) ->
  no_surrogate_pair (chunks ++ [c]).
Proof.
  induction chunks as [|h chunks IH]; intros Hp Hl; [done|].
  destruct Hp as [Hh Hp]. destruct chunks as [|l chunks].
  - cbn. split; [|done]. apply Hl. reflexivity.
  - cbn [app no_surrogate_pair] in *. split; [done|].
    apply IH; [done|]. intros h' Hh'. apply Hl. exact Hh'.
Qed.


Lemma scan_inv_snoc chunks s c s' :
  scan_inv chunks s ->
  c < 0x110000 ->
  (is_low_surrogate c = true -> low_escape s) ->
  (is_high_surrogate c = true -> ~ low_escape s') ->
  scan_inv (chunks ++ [c]) s'.
Proof.
  intros [[Hlt Hp] Hlast] Hc Hlow Hhigh. split; [split|].
  - apply Forall_app. split; [done|]. now constructor.
  - apply no_surrogate_pair_snoc; [done|].
    intros h Hh [H1 H2]. apply (Hlast h Hh); [done|]. now apply Hlow.
  - intros h. rewrite last_snoc. intros [= <-]. exact Hhigh.
Qed.

Lemma valid_text_drop (s : str) n : valid_text s -> valid_text (drop n s).
Proof. unfold valid_text. apply Forall_drop. Qed.

Lemma scanstring_ok n :
  forall s chunks out r,
    (length s <= n)%nat -> valid_text s -> scan_inv chunks s ->
    scanstring s chunks = Some (out, r) ->
    str_ok out /\ valid_text r.
Proof.
  induction n as [|n IH]; intros s chunks out r Hn Hv Hinv.
  { destruct s; [done|simpl in Hn; lia]. }
  destruct s as [|terminator s1]; [done|]. cbn [scanstring].
  inversion Hv as [|? ? Hterm Hv1]; subst.
  cbn [length] in Hn.
  destruct (decide (terminator = 34)) as [->|Hq].
  { intros [= <- <-]. split; [apply Hinv|done]. }
  destruct (decide (terminator = 92)) as [->|Hb].
  - destruct s1 as [|esc s2]; [done|].
    inversion Hv1 as [|? ? _ Hv2]; subst. cbn [length] in Hn.
    destruct (decide (esc = 117)) as [->|Hu].
    + destruct s2 as [|h1 [|h2 [|h3 [|h4 s6]]]]; try done.
      assert (Hv6 : valid_text s6) by apply (valid_text_drop _ 4 Hv2).
      cbn [length] in Hn.
      destruct (_decode_uXXXX h1 h2 h3 h4) as [uni|] eqn:Ed; [|done].
      pose proof (_decode_uXXXX_lt _ _ _ _ _ Ed) as Huni.
      assert (Hlow : is_low_surrogate uni = true ->
                     low_escape (92 :: 117 :: h1 :: h2 :: h3 :: h4 :: s6)).
      { intros Hl. exists h1, h2, h3, h4, s6, uni. done. }
      destruct (is_high_surrogate uni) eqn:Ehigh.
      * assert (Hlone : ~ low_escape s6 ->
                  scanstring s6 (chunks ++ [uni]) = Some (out, r) ->
                  str_ok out /\ valid_text r).
        { intros Hnl. apply IH; [lia|done|].
          eapply scan_inv_snoc; [exact Hinv|lia|exact Hlow|done]. }
        destruct s6 as [|b [|u s8]].
        -- apply Hlone. intros (?&?&?&?&?&?&?&_). done.
        -- apply Hlone. intros (?&?&?&?&?&?&?&_). done.
        -- destruct (bool_decide (b = 92 /\ u = 117)) eqn:Ebu.
           ++ apply bool_decide_eq_true in Ebu as [-> ->].
              destruct s8 as [|l1 [|l2 [|l3 [|l4 s12]]]]; try done.
              destruct (_decode_uXXXX l1 l2 l3 l4) as [uni2|] eqn:Ed2; [|done].
              destruct (is_low_surrogate uni2) eqn:Elow.
              ** pose proof (join_surrogates_range _ _ Ehigh Elow) as Hj.
                 apply IH.
                 --- cbn [length] in Hn. lia.
                 --- apply (valid_text_drop _ 6 Hv6).
                 --- eapply scan_inv_snoc; [exact Hinv|lia| |].
                     +++ unfold is_low_surrogate. intros H. n_arith. lia.
                     +++ unfold is_high_surrogate. intros H. n_arith. lia.
              ** apply Hlone.
                 intros (?&?&?&?&?&?&Heq&Hd&Hl). simplify_eq. congruence.
           ++ apply bool_decide_eq_false in Ebu. apply Hlone.
              intros (?&?&?&?&?&?&Heq&_). simplify_eq. now apply Ebu.
      * apply IH; [lia|done|].
        eapply scan_inv_snoc; [exact Hinv|lia|exact Hlow|congruence].
    + destruct (BACKSLASH esc) as [char|] eqn:Eb; [|done].
      destruct (BACKSLASH_plain _ _ Eb) as (Hc & Hh & Hl).
      apply IH; [lia|done|].
      eapply scan_inv_snoc; [exact Hinv|done| |]; congruence.
  - destruct (terminator <? 32); [done|].
    destruct (scalar_not_surrogate _ Hterm) as (Hc & Hh & Hl).
    apply IH; [lia|done|].
    eapply scan_inv_snoc; [exact Hinv|done| |]; congruence.
Qed.

Lemma scanstring_str_ok s out r :
  valid_text s -> scanstring s [] = Some (out, r) ->
  str_ok out /\ valid_text r.
Proof.
  intros Hv. apply (scanstring_ok (length s)); [done|done|].
  split; [split; [constructor|done]|]. done.
Qed.

Section Sound.
Context {FM : FloatModel}.


Lemma skip_ws_valid s : valid_text s -> valid_text (skip_ws s).
Proof.
  induction 1 as [|c s Hc Hs IH]; simpl; [constructor|].
  destruct (is_ws c); [done|now constructor].
Qed.

Lemma strip_prefix_valid p s r :
  strip_prefix p s = Some r -> valid_text s -> valid_text r.
Proof.
  revert s. induction p as [|x p IH]; intros s; simpl.
  - now intros [= <-].
  - destruct s as [|c s]; [done|]. case_decide; [|done].
    intros Hp Hv. inversion Hv; subst. now apply (IH s).
Qed.

Lemma match_number_valid s i fr ex r :
  match_number s = Some (i, fr, ex, r) -> valid_text s -> valid_text r.
Proof.
  intros H Hv. rewrite (match_number_eq _ _ _ _ _ H) in Hv.
  unfold valid_text in *. rewrite !Forall_app in Hv. tauto.
Qed.

Lemma valid_text_tail c s : valid_text (c :: s) -> valid_text s.
Proof. now inversion 1. Qed.

Lemma JSONArray_loop_sound scan :
  scan_sound scan ->
  forall n s values v r,
    valid_text s -> Forall wf values ->
    JSONArray_loop scan n s values = Some (v, r) ->
    wf v /\ valid_text r.
Proof.
  intros Hscan. induction n as [|n IH]; intros s values v r Hs Hvals; [done|].
  cbn [JSONArray_loop].
  destruct (scan s) as [[x s1]|] eqn:Ex; [|done].
  destruct (Hscan _ _ _ Hs Ex) as [Hx Hs1].
  cbv beta iota delta [mbind option_bind].
  pose proof (skip_ws_valid _ Hs1) as Hs1'.
  destruct (skip_ws s1) as [|nextchar s2]; [done|].
  apply valid_text_tail in Hs1'.
  assert (Forall wf (values ++ [x]))
    by (apply Forall_app; split; [done|now constructor]).
  case_decide; [intros [= <- <-]; split; [now constructor|done]|].
  case_decide; [|done].
  apply IH; [now apply skip_ws_valid|done].
Qed.

Lemma JSONArray_sound scan : scan_sound scan -> scan_sound (JSONArray scan).
Proof.
  intros Hscan s v r Hs. unfold JSONArray.
  pose proof (skip_ws_valid _ Hs) as Hs'.
  destruct (skip_ws s) as [|nextchar s2] eqn:E; [done|].
  case_decide.
  - intros [= <- <-]. split; [repeat constructor|].
    now apply valid_text_tail in Hs'.
  - now apply JSONArray_loop_sound.
Qed.


Lemma dict_setitem_keys d key v :
  (dict_setitem d key v).*1 = d.*1
  \/ ((key ∉ d.*1) /\ (dict_setitem d key v).*1 = d.*1 ++ [key]).
Proof.
  induction d as [|[k x] d IH]; simpl.
  - right. split; [apply not_elem_of_nil|done].
  - case_decide as Hk; [now left|].
    rewrite !fmap_cons. cbn [fst].
    destruct IH as [E|[Hnin E]]; rewrite E; [now left|right].
    split; [|done]. apply not_elem_of_cons. split; [congruence|done].
Qed.

Lemma dict_setitem_ok d key v :
  NoDup d.*1 -> items_ok d -> str_ok key -> wf v ->
  NoDup (dict_setitem d key v).*1 /\ items_ok (dict_setitem d key v).
Proof.
  intros Hnd Hok Hk Hv. split.
  - destruct (dict_setitem_keys d key v) as [->|[Hnin ->]]; [done|].
    apply NoDup_app. split; [done|]. split; [|apply NoDup_singleton].
    intros x Hx ?%list_elem_of_singleton. now subst.
  - clear Hnd. unfold items_ok.
    induction Hok as [|[k x] d [Hkx Hx] Hok IH]; simpl.
    + apply List.Forall_cons; [done|apply List.Forall_nil].
    + case_decide; subst; apply List.Forall_cons; done.
Qed.

Lemma dict_of_pairs_ok pairs :
  items_ok pairs -> 
  NoDup (dict_of_pairs pairs).*1 /\ items_ok (dict_of_pairs pairs).
Proof.
  unfold dict_of_pairs.
  assert (forall d, NoDup d.*1 -> items_ok d -> items_ok pairs ->
            NoDup (fold_left (fun d kv => dict_setitem d kv.1 kv.2) pairs d).*1
            /\ items_ok (fold_left (fun d kv => dict_setitem d kv.1 kv.2)
                           pairs d)) as H.
  { induction pairs as [|[k v] pairs IH]; intros d Hnd Hd Hp; [done|].
    inversion Hp as [|? ? [Hk Hv] Hp']; subst. simpl.
    destruct (dict_setitem_ok d k v Hnd Hd Hk Hv). now apply IH. }
  intros Hp. apply H; [constructor|constructor|done].
Qed.

Lemma JSONObject_loop_sound scan :
  scan_sound scan ->
  forall n s pairs v r,
    valid_text s -> items_ok pairs ->
    JSONObject_loop scan n s pairs = Some (v, r) ->
    wf v /\ valid_text r.
Proof.
  intros Hscan. induction n as [|n IH]; intros s pairs v r Hs Hp; [done|].
  cbn [JSONObject_loop].
  destruct (scanstring s []) as [[key s1]|] eqn:Ek; [|done].
  destruct (scanstring_str_ok _ _ _ Hs Ek) as [Hkey Hs1].
  cbv beta iota delta [mbind option_bind].
  pose proof (skip_ws_valid _ Hs1) as Hs1'.
  destruct (skip_ws s1) as [|colon s2]; [done|].
  apply valid_text_tail in Hs1'.
  case_decide; [|done].
  destruct (scan (skip_ws s2)) as [[x s3]|] eqn:Ex; [|done].
  destruct (Hscan _ _ _ (skip_ws_valid _ Hs1') Ex) as [Hx Hs3].
  cbv beta iota delta [mbind option_bind].
  pose proof (skip_ws_valid _ Hs3) as Hs3'.
  destruct (skip_ws s3) as [|nextchar s4]; [done|].
  apply valid_text_tail in Hs3'.
  assert (items_ok (pairs ++ [(key, x)]))
    by (apply Forall_app; split;
        [done|apply List.Forall_cons; [done|apply List.Forall_nil]]).
  case_decide.
  { intros [= <- <-]. split; [|done].
    destruct (dict_of_pairs_ok (pairs ++ [(key, x)])); [done|].
    now constructor. }
  case_decide; [|done].
  pose proof (skip_ws_valid _ Hs3') as Hs4.
  destruct (skip_ws s4) as [|quote s5]; [done|].
  apply valid_text_tail in Hs4.
  case_decide; [|done].
  now apply IH.
Qed.

Lemma JSONObject_sound scan : scan_sound scan -> scan_sound (JSONObject scan).
Proof.
  intros Hscan s v r Hs. unfold JSONObject.
  pose proof (skip_ws_valid _ Hs) as Hs'.
  destruct (skip_ws s) as [|nextchar s1] eqn:E; [done|].
  apply valid_text_tail in Hs'.
  case_decide.
  - intros [= <- <-]. split; [|done]. repeat constructor.
  - case_decide; [|done].
    apply JSONObject_loop_sound; [done|done|apply List.Forall_nil].
Qed.

Theorem _scan_once_sound fuel : scan_sound (_scan_once fuel).
Proof.
  induction fuel as [|fuel IH]; intros s v r Hs; [done|].
  destruct s as [|nextchar rest]; [done|]. cbn [_scan_once].
  pose proof (valid_text_tail _ _ Hs) as Hrest.
  case_decide.
  { destruct (scanstring rest []) as [[x r']|] eqn:Ex; [|done].
    destruct (scanstring_str_ok _ _ _ Hrest Ex).
    intros [= <- <-]. split; [now constructor|done]. }
  case_decide; [now apply JSONObject_sound|].
  case_decide; [now apply JSONArray_sound|].
  destruct (strip_prefix (lit "null") _) eqn:E1.
  { intros [= <- <-]. split; [constructor|].
    eapply strip_prefix_valid; done. }
  destruct (strip_prefix (lit "true") _) eqn:E2.
  { intros [= <- <-]. split; [constructor|].
    eapply strip_prefix_valid; done. }
  destruct (strip_prefix (lit "false") _) eqn:E3.
  { intros [= <- <-]. split; [constructor|].
    eapply strip_prefix_valid; done. }
  destruct (match_number _) as [[[[i fr] ex] r']|] eqn:Em.
  { pose proof (match_number_valid _ _ _ _ _ Em Hs).
    case_bool_decide as Hfe; intros [= <- <-]; (split; [|done]).
    - constructor. right. right. right.
      exists (nextchar :: rest), i, fr, ex, r'. done.
    - constructor. }
  destruct (strip_prefix (lit "NaN") _) eqn:E4.
  { intros [= <- <-]. split; [constructor; now left|].
    eapply strip_prefix_valid; done. }
  destruct (strip_prefix (lit "Infinity") _) eqn:E5.
  { intros [= <- <-]. split; [constructor; right; now left|].
    eapply strip_prefix_valid; done. }
  destruct (strip_prefix (lit "-Infinity") _) eqn:E6; [|done].
  intros [= <- <-]. split; [constructor; right; right; now left|].
  eapply strip_prefix_valid; done.
Qed.

(** Every value that [json.loads] returns on text decoded from UTF-8 is
    well formed. *)
Theorem loads_wf s v : valid_text s -> loads s = Some v -> wf v.
Proof.
  intros Hs. unfold loads. destruct (startswith s _); [done|].
  unfold decode, raw_decode.
  destruct (_scan_once _ _) as [[obj rest]|] eqn:E; [|done].
  destruct (_scan_once_sound _ _ _ _ (skip_ws_valid _ Hs) E) as [Hobj _].
  cbv beta iota delta [mbind option_bind].
  destruct (skip_ws rest); [|done]. now intros [= <-].
Qed.
End Sound.

(** ** The bounds on nesting and on loop iterations are never reached

    The scanner is given the length of the text as its bound on nesting,
    and each loop the length of what is left as its bound on iterations.
    Every scan consumes at least one character, so a larger bound changes
    nothing: a [None] of the model is an error of the decoder, never an
    exhausted bound. *)

Section Fuel.
Context {FM : FloatModel}.


Lemma skip_ws_length s : (length (skip_ws s) <= length s)%nat.
Proof.
  induction s as [|c s IH]; simpl; [done|].
  destruct (is_ws c); simpl; lia.
Qed.

Lemma scanstring_length n :
  forall s chunks out r,
    (length s <= n)%nat -> scanstring s chunks = Some (out, r) ->
    (length r < length s)%nat.
Proof.
  induction n as [|n IH]; intros s chunks out r Hn.
  { destruct s; [done|simpl in Hn; lia]. }
  destruct s as [|terminator s1]; [done|]. cbn [scanstring length] in *.
  case_decide; [intros [= <- <-]; lia|].
  case_decide.
  - destruct s1 as [|esc s2]; [done|]. cbn [length] in *.
    case_decide.
    + destruct s2 as [|h1 [|h2 [|h3 [|h4 s6]]]]; try done.
      cbn [length] in *.
      destruct (_decode_uXXXX h1 h2 h3 h4) as [uni|]; [|done].
      assert (Hlone : scanstring s6 (chunks ++ [uni]) = Some (out, r) ->
                      (length r < S (S (S (S (S (S (length s6)))))))%nat).
      { intros H'. apply IH in H'; lia. }
      destruct (is_high_surrogate uni); [|exact Hlone].
      destruct s6 as [|b [|u s8]]; try exact Hlone.
      destruct (bool_decide (b = 92 /\ u = 117)); [|exact Hlone].
      destruct s8 as [|l1 [|l2 [|l3 [|l4 s12]]]]; try done.
      destruct (_decode_uXXXX l1 l2 l3 l4) as [uni2|]; [|done].
      destruct (is_low_surrogate uni2); [|exact Hlone].
      cbn [length] in *. intros H'. apply IH in H'; lia.
    + destruct (BACKSLASH esc); [|done]. intros H'. apply IH in H'; lia.
  - destruct (terminator <? 32); [done|]. intros H'. apply IH in H'; lia.
Qed.

Lemma strip_prefix_length p s r :
  strip_prefix p s = Some r -> (length s = length p + length r)%nat.
Proof.
  revert s. induction p as [|x p IH]; intros s; simpl.
  - now intros [= <-].
  - destruct s as [|c s]; [done|]. case_decide; [|done].
    intros H'. apply IH in H'. simpl. lia.
Qed.

Lemma integer_digits_nonempty sign u i s1 :
  integer_digits sign u = Some (i, s1) -> i <> [].
Proof.
  unfold integer_digits. destruct u as [|d u]; [done|].
  case_decide; [intros [= <- <-]; now destruct sign|].
  destruct (is_digit d); [|done]. destruct (span_digits u) as [ds r'].
  intros [= <- <-]. now destruct sign.
Qed.

Lemma match_number_length s i fr ex r :
  match_number s = Some (i, fr, ex, r) -> (length r < length s)%nat.
Proof.
  intros H. pose proof (match_number_eq _ _ _ _ _ H) as E.
  assert (i <> []) as Hi.
  { clear E. unfold match_number in H.
    destruct (integer_group s) as [[i' s1]|] eqn:Ei; [|done].
    destruct (frac_group s1), (exp_group _). inversion H; subst.
    unfold integer_group in Ei. destruct s as [|c t]; [done|].
    case_decide; eapply integer_digits_nonempty; exact Ei. }
  rewrite E, !length_app. destruct i; [done|]. simpl. lia.
Qed.

Lemma JSONArray_loop_consumes scan :
  consumes scan ->
  forall n s values v r,
    JSONArray_loop scan n s values = Some (v, r) ->
    (length r < length s)%nat.
Proof.
  intros Hscan. induction n as [|n IH]; intros s values v r; [done|].
  cbn [JSONArray_loop].
  destruct (scan s) as [[x s1]|] eqn:Ex; [|done].
  apply Hscan in Ex. cbv beta iota delta [mbind option_bind].
  pose proof (skip_ws_length s1).
  destruct (skip_ws s1) as [|nextchar s2]; [done|]. cbn [length] in *.
  case_decide; [intros [= <- <-]; lia|].
  case_decide; [|done].
  intros H'. apply IH in H'. pose proof (skip_ws_length s2). lia.
Qed.

Lemma JSONObject_loop_consumes scan :
  consumes scan ->
  forall n s pairs v r,
    JSONObject_loop scan n s pairs = Some (v, r) ->
    (length r < length s)%nat.
Proof.
  intros Hscan. induction n as [|n IH]; intros s pairs v r; [done|].
  cbn [JSONObject_loop].
  destruct (scanstring s []) as [[key s1]|] eqn:Ek; [|done].
  apply (scanstring_length (length s)) in Ek; [|done].
  cbv beta iota delta [mbind option_bind].
  pose proof (skip_ws_length s1).
  destruct (skip_ws s1) as [|colon s2]; [done|]. cbn [length] in *.
  case_decide; [|done].
  destruct (scan (skip_ws s2)) as [[x s3]|] eqn:Ex; [|done].
  apply Hscan in Ex. cbv beta iota delta [mbind option_bind].
  pose proof (skip_ws_length s2). pose proof (skip_ws_length s3).
  destruct (skip_ws s3) as [|nextchar s4]; [done|]. cbn [length] in *.
  case_decide; [intros [= <- <-]; lia|].
  case_decide; [|done].
  pose proof (skip_ws_length s4).
  destruct (skip_ws s4) as [|quote s5]; [done|]. cbn [length] in *.
  case_decide; [|done].
  intros H'. apply IH in H'. lia.
Qed.

Lemma _scan_once_consumes fuel : consumes (_scan_once fuel).
Proof.
  induction fuel as [|fuel IH]; intros s v r; [done|].
  destruct s as [|nextchar rest]; [done|]. cbn [_scan_once length].
  case_decide.
  { destruct (scanstring rest []) as [[x r']|] eqn:Ex; [|done].
    apply (scanstring_length (length rest)) in Ex; [|done].
    intros [= <- <-]. lia. }
  case_decide.
  { unfold JSONObject. pose proof (skip_ws_length rest).
    destruct (skip_ws rest) as [|c s1]; [done|]. cbn [length] in *.
    case_decide; [intros [= <- <-]; lia|].
    case_decide; [|done].
    intros H'. apply (JSONObject_loop_consumes _ IH) in H'. lia. }
  case_decide.
  { unfold JSONArray. pose proof (skip_ws_length rest).
    destruct (skip_ws rest) as [|c s1] eqn:E; [done|].
    case_decide; [intros [= <- <-]; cbn [length] in *; lia|].
    intros H'. apply (JSONArray_loop_consumes _ IH) in H'. lia. }
  repeat match goal with
         | |- context [strip_prefix ?p ?s] =>
             let E := fresh "E" in
             destruct (strip_prefix p s) eqn:E;
             [apply strip_prefix_length in E; simpl in E;
              intros [= <- <-]; lia|]
         | |- context [match_number ?s] =>
             let E := fresh "E" in
             destruct (match_number s) as [[[[? ?] ?] ?]|] eqn:E;
             [apply match_number_length in E; cbn [length] in E;
              case_bool_decide; intros [= <- <-]; lia|]
         end.
  done.
Qed.


Lemma JSONArray_loop_fuel scan scan' :
  consumes scan ->
  forall n n' s values,
    (length s <= n)%nat -> (length s <= n')%nat ->
    agree (length s) scan scan' ->
    JSONArray_loop scan n s values = JSONArray_loop scan' n' s values.
Proof.
  intros Hscan. induction n as [|n IH]; intros n' s values Hn Hn' Hag.
  - destruct s; [|simpl in Hn; lia].
    destruct n'; [done|]. cbn [JSONArray_loop]. rewrite <- Hag by done.
    destruct (scan []) as [[x s1]|] eqn:Ex; [|done].
    apply Hscan in Ex. simpl in Ex. lia.
  - cbn [JSONArray_loop].
    destruct n' as [|n'].
    { destruct s; [|simpl in Hn'; lia].
      destruct (scan []) as [[x s1]|] eqn:Ex; [|done].
      apply Hscan in Ex. simpl in Ex. lia. }
    cbn [JSONArray_loop]. rewrite <- Hag by done.
    destruct (scan s) as [[x s1]|] eqn:Ex; [|done].
    apply Hscan in Ex. cbv beta iota delta [mbind option_bind].
    pose proof (skip_ws_length s1).
    destruct (skip_ws s1) as [|nextchar s2]; [done|]. cbn [length] in *.
    case_decide; [done|]. case_decide; [|done].
    pose proof (skip_ws_length s2).
    apply IH; [lia|lia|]. intros s' Hs'. apply Hag. lia.
Qed.

Lemma JSONObject_loop_fuel scan scan' :
  consumes scan ->
  forall n n' s pairs,
    (length s <= n)%nat -> (length s <= n')%nat ->
    agree (length s) scan scan' ->
    JSONObject_loop scan n s pairs = JSONObject_loop scan' n' s pairs.
Proof.
  intros Hscan. induction n as [|n IH]; intros n' s pairs Hn Hn' Hag.
  - destruct s; [|simpl in Hn; lia]. destruct n'; done.
  - cbn [JSONObject_loop].
    destruct n' as [|n'].
    { destruct s; [done|simpl in Hn'; lia]. }
    cbn [JSONObject_loop].
    destruct (scanstring s []) as [[key s1]|] eqn:Ek; [|done].
    apply (scanstring_length (length s)) in Ek; [|done].
    cbv beta iota delta [mbind option_bind].
    pose proof (skip_ws_length s1).
    destruct (skip_ws s1) as [|colon s2]; [done|]. cbn [length] in *.
    case_decide; [|done].
    pose proof (skip_ws_length s2).
    rewrite <- Hag by lia.
    destruct (scan (skip_ws s2)) as [[x s3]|] eqn:Ex; [|done].
    apply Hscan in Ex. cbv beta iota delta [mbind option_bind].
    pose proof (skip_ws_length s3).
    destruct (skip_ws s3) as [|nextchar s4]; [done|]. cbn [length] in *.
    case_decide; [done|]. case_decide; [|done].
    pose proof (skip_ws_length s4).
    destruct (skip_ws s4) as [|quote s5]; [done|]. cbn [length] in *.
    case_decide; [|done].
    apply IH; [lia|lia|]. intros s' Hs'. apply Hag. lia.
Qed.

(** More fuel than the text is long changes nothing. *)
Theorem _scan_once_fuel fuel :
  forall fuel' s,
    (length s < fuel)%nat -> (length s < fuel')%nat ->
    _scan_once fuel s = _scan_once fuel' s.
Proof.
  induction fuel as [|fuel IH]; intros fuel' s Hf Hf'; [lia|].
  destruct fuel' as [|fuel']; [lia|].
  destruct s as [|nextchar rest]; [done|]. cbn [_scan_once length] in *.
  case_decide; [done|].
  assert (Hag : forall s', (length s' <= length rest)%nat ->
                  _scan_once fuel s' = _scan_once fuel' s').
  { intros s' Hs'. apply IH; lia. }
  case_decide.
  { unfold JSONObject. pose proof (skip_ws_length rest).
    destruct (skip_ws rest) as [|c s1]; [done|]. cbn [length] in *.
    case_decide; [done|]. case_decide; [|done].
    apply JSONObject_loop_fuel; [apply _scan_once_consumes|done|done|].
    intros s' Hs'. apply Hag. lia. }
  case_decide; [|done].
  unfold JSONArray. pose proof (skip_ws_length rest).
  destruct (skip_ws rest) as [|c s1] eqn:E; [done|].
  case_decide; [done|].
  apply JSONArray_loop_fuel; [apply _scan_once_consumes|done|done|].
  intros s' Hs'. apply Hag. lia.
Qed.
End Fuel.

(** ** The decimal float model meets the float laws *)

Lemma uint_chars_nonnil u : u <> Nil -> uint_chars u <> [].
Proof. destruct u; done. Qed.

Lemma int_repr_shape z :
  exists ds, ds <> [] /\ all_digits ds
    /\ (int_repr z = ds \/ int_repr z = 45 :: ds).
Proof.
  unfold int_repr. destruct z as [|p|p]; simpl Z.to_int; cbv iota.
  - exists [48]. split; [done|]. split; [|now left]. now repeat constructor.
  - exists (uint_chars (Pos.to_uint p)). split.
    + apply uint_chars_nonnil, DecimalPos.Unsigned.to_uint_nonnil.
    + split; [apply all_digits_uint_chars|now left].
  - exists (uint_chars (Pos.to_uint p)). split.
    + apply uint_chars_nonnil, DecimalPos.Unsigned.to_uint_nonnil.
    + split; [apply all_digits_uint_chars|now right].
Qed.

Lemma digits1_all ds : ds <> [] -> all_digits ds -> digits1 ds = Some (ds, []).
Proof.
  intros Hne Hd. unfold digits1. rewrite span_digits_all by done.
  now destruct ds.
Qed.

Lemma exp_group_int_repr e :
  exp_group (101 :: int_repr e) = (Some (101 :: int_repr e), []).
Proof.
  destruct (int_repr_shape e) as (ds & Hne & Hd & [E|E]); rewrite E.
  - unfold exp_group. rewrite bool_decide_eq_true_2 by tauto.
    destruct ds as [|g ds']; [done|].
    inversion Hd as [|? ? Hg _]; subst.
    rewrite bool_decide_eq_false_2.
    + now rewrite digits1_all.
    + unfold is_digit in Hg. n_arith. lia.
  - unfold exp_group. rewrite bool_decide_eq_true_2 by tauto.
    rewrite bool_decide_eq_true_2 by tauto.
    now rewrite digits1_all.
Qed.

Lemma match_number_decimal_repr m e :
  match_number (int_repr m ++ [101] ++ int_repr e)
  = Some (int_repr m, None, Some (101 :: int_repr e), []).
Proof.
  pose proof (match_number_int_repr m) as Hm.
  unfold match_number in *.
  destruct (integer_group (int_repr m)) as [[i s1]|] eqn:Ei; [|done].
  assert (i = int_repr m /\ s1 = []) as [-> ->].
  { destruct (frac_group s1) as [fr s2] eqn:Ef.
    destruct (exp_group s2) as [ex s3] eqn:Ee.
    injection Hm as -> -> -> ->.
    unfold exp_group in Ee. destruct s2 as [|c t]; [|exfalso].
    - unfold frac_group in Ef. destruct s1 as [|c t]; [done|exfalso].
      destruct (decide (c = 46)); [|now inversion Ef].
      destruct (digits1 t) as [[? ?]|]; now inversion Ef.
    - destruct (bool_decide (c = 101 \/ c = 69)); [|now inversion Ee].
      destruct t as [|g t']; [now inversion Ee|].
      destruct (bool_decide (g = 45 \/ g = 43)).
      + destruct (digits1 t') as [[? ?]|]; now inversion Ee.
      + destruct (digits1 (g :: t')) as [[? ?]|]; now inversion Ee. }
  rewrite (integer_group_app _ _ _ ([101] ++ int_repr e) Ei) by done.
  cbn [app frac_group]. rewrite decide_False by done.
  now rewrite exp_group_int_repr.
Qed.

Lemma decimal_of_str_repr m e :
  DecimalFloat.of_str (DecimalFloat.repr (DecimalFloat.DFinite m e))
  = DecimalFloat.DFinite m e.
Proof.
  unfold DecimalFloat.of_str, DecimalFloat.repr.
  rewrite match_number_decimal_repr.
  unfold DecimalFloat.frac_digits. rewrite app_nil_r, int_of_str_int_repr.
  f_equal. unfold DecimalFloat.exp_value.
  destruct (int_repr_head e) as (g & ds & E & Hg). rewrite E.
  rewrite decide_False.
  - rewrite <- E, int_of_str_int_repr. simpl. lia.
  - unfold is_digit in Hg. destruct Hg as [->|Hg]; [done|]. n_arith. lia.
Qed.

Lemma decimal_float_laws : FloatLaws DecimalFloat.model.
Proof.
  split; intros f _; destruct f as [m e| | |]; simpl; try done.
  - rewrite !Z.eqb_refl. done.
  - intros _ _ _. split; [|apply decimal_of_str_repr].
    eexists _, _, _. split; [apply match_number_decimal_repr|].
    right. eauto.
Qed.

Section Program.
Context {FM : FloatModel}.
Import prep_json ldjson.


Lemma for_obj_in_reader_pure lines lineno json_objects w :
  for_obj_in_reader lines lineno json_objects w
  = (read_records lines lineno json_objects, w).
Proof.
  revert lineno json_objects.
  induction lines as [|line lines IH]; intros lineno objs; [done|].
  cbn [for_obj_in_reader read_records].
  unfold mbind, M_bind, bind, jsonlines.Reader_read, decoded.
  destruct (loads (jsonlines.skip_initial line)) as [v|]; [|done].
  destruct v; try apply IH. done.
Qed.

Lemma main_usage argv w :
  length argv <> 3%nat ->
  main argv w
  = (Raise (SystemExit 1),
     World (files w) (no_read w) (no_write w) (stdout w ++ [usage])
           (trace w)).
Proof.
  intros H. unfold main.
  destruct (length argv =? 3)%nat eqn:E; [apply Nat.eqb_eq in E; done|].
  reflexivity.
Qed.

Lemma bind_Return {A B} (m : M A) (k : A -> M B) w a w' :
  m w = (Return a, w') -> bind m k w = k a w'.
Proof. intros H. unfold bind. now rewrite H. Qed.

Lemma bind_Raise {A B} (m : M A) (k : A -> M B) w e w' :
  m w = (Raise e, w') -> bind m k w = (Raise e, w').
Proof. intros H. unfold bind. now rewrite H. Qed.

Lemma with_enter_Raise {Res A} (enter : M Res) exit (body : Res -> M A)
    w e w' :
  enter w = (Raise e, w') -> with_ enter exit body w = (Raise e, w').
Proof. intros H. unfold with_. now apply bind_Raise. Qed.

Lemma with_Return {Res A} (enter : M Res) exit (body : Res -> M A)
    w r w1 a w2 w3 :
  enter w = (Return r, w1) -> body r w1 = (Return a, w2) ->
  exit r w2 = (Return tt, w3) ->
  with_ enter exit body w = (Return a, w3).
Proof.
  intros H1 H2 H3. unfold with_. rewrite (bind_Return _ _ _ _ _ H1).
  rewrite H2. now rewrite (bind_Return _ _ _ _ _ H3).
Qed.

Lemma with_Raise {Res A} (enter : M Res) exit (body : Res -> M A)
    w r w1 e w2 w3 :
  enter w = (Return r, w1) -> body r w1 = (Raise e, w2) ->
  exit r w2 = (Return tt, w3) ->
  with_ enter exit body w = (Raise e, w3).
Proof.
  intros H1 H2 H3. unfold with_. rewrite (bind_Return _ _ _ _ _ H1).
  rewrite H2. now rewrite (bind_Return _ _ _ _ _ H3).
Qed.

Lemma jsonlines_open_Return path w text :
  files w !! path = Some text -> path ∉ no_read w ->
  jsonlines.open path w
  = (Return (path, lines_of text), add_trace w [EvOpen path R]).
Proof.
  intros Hf Hr. unfold jsonlines.open, mbind, M_bind, bind, open_r.
  rewrite Hf. now rewrite decide_False.
Qed.

Lemma jsonlines_open_Raise path w :
  files w !! path = None \/ path ∈ no_read w ->
  jsonlines.open path w = (Raise (OSError path), w).
Proof.
  intros H. unfold jsonlines.open, mbind, M_bind.
  apply bind_Raise. unfold open_r.
  destruct (files w !! path); [|done].
  destruct H as [?|?]; [done|]. now rewrite decide_True.
Qed.

Lemma open_w_Return path w :
  path ∉ no_write w ->
  open_w path w
  = (Return path,
     World (<[path := []]> (files w)) (no_read w) (no_write w) (stdout w)
           (trace w ++ [EvOpen path W])).
Proof. intros H. unfold open_w. now rewrite decide_False. Qed.

Lemma open_w_Raise path w :
  path ∈ no_write w -> open_w path w = (Raise (OSError path), w).
Proof. intros H. unfold open_w. now rewrite decide_True. Qed.

Lemma main_run prog input_file output_file w :
  main [prog; input_file; output_file] w
  = run_cases input_file output_file w.
Proof.
  unfold main, run_cases. cbn [length Nat.eqb negb].
  unfold getitem. cbn [lookup list_lookup].
  unfold mbind, M_bind.
  rewrite (bind_Return (ret input_file) _ w input_file w eq_refl).
  rewrite (bind_Return (ret output_file) _ w output_file w eq_refl).
  destruct (files w !! input_file) as [text|] eqn:Ef.
  2:{ apply bind_Raise, with_enter_Raise, jsonlines_open_Raise. now left. }
  destruct (decide (input_file ∈ no_read w)) as [Hr|Hr].
  { apply bind_Raise, with_enter_Raise, jsonlines_open_Raise. now right. }
  pose proof (jsonlines_open_Return _ _ _ Ef Hr) as Hopen.
  pose proof (for_obj_in_reader_pure (lines_of text) 1 []
                (add_trace w [EvOpen input_file R])) as Hloop.
  destruct (read_records (lines_of text) 1 []) as [objs|e].
  2:{ apply bind_Raise.
      eapply with_Raise; [exact Hopen|exact Hloop|].
      unfold jsonlines.Reader_close, close, log, add_trace. cbn.
      now rewrite <- app_assoc. }
  erewrite bind_Return.
  2:{ eapply with_Return; [exact Hopen|exact Hloop|]. reflexivity. }
  unfold jsonlines.Reader_close, close, log, add_trace.
  cbn [fst files no_read no_write stdout trace].
  rewrite <- app_assoc. cbn [app].
  destruct (decide (output_file ∈ no_write w)) as [Hw|Hw].
  { apply bind_Raise, with_enter_Raise, open_w_Raise. done. }
  erewrite bind_Return.
  2:{ eapply with_Return.
      - apply open_w_Return. done.
      - reflexivity.
      - reflexivity. }
  unfold print. cbn [files no_read no_write stdout trace].
  rewrite lookup_insert_eq. cbn [default app]. rewrite insert_insert_eq.
  rewrite <- !app_assoc. reflexivity.
Qed.
End Program.

Section Lines.
Context {FM : FloatModel}.
Import prep_json ldjson.


Lemma read_records_Return lines lineno acc :
  Forall record lines ->
  exists vs, read_records lines lineno acc = Return (acc ++ vs)
             /\ decoded_all lines vs.
Proof.
  intros H. revert lineno acc.
  induction H as [|line lines (v & Hd & Hv) _ IH]; intros lineno acc.
  - exists []. split; [now rewrite app_nil_r|constructor].
  - destruct (IH (S lineno) (acc ++ [v])) as (vs & Hr & Hvs).
    exists (v :: vs). split; [|now constructor].
    cbn [read_records]. rewrite Hd.
    rewrite <- app_assoc in Hr. cbn [app] in Hr. now destruct v.
Qed.

Lemma read_records_Return_inv lines lineno acc objs :
  read_records lines lineno acc = Return objs ->
  exists vs, objs = acc ++ vs /\ decoded_all lines vs.
Proof.
  revert lineno acc. induction lines as [|line lines IH]; intros lineno acc.
  - intros [= <-]. exists []. split; [now rewrite app_nil_r|constructor].
  - cbn [read_records]. destruct (decoded line) as [v|] eqn:Ed; [|done].
    assert (Hgo : v <> VNone ->
              read_records lines (S lineno) (acc ++ [v]) = Return objs ->
              exists vs, objs = acc ++ vs /\ decoded_all (line :: lines) vs).
    { intros Hv Hr. destruct (IH _ _ Hr) as (vs & -> & Hvs).
      exists (v :: vs). rewrite <- app_assoc. split; [done|].
      now constructor. }
    destruct v; try (now apply Hgo). done.
Qed.

Lemma is_record_true line : is_record line = true -> record line.
Proof.
  unfold is_record, record. destruct (decoded line) as [v|]; [|done].
  destruct v; intros H; try done; eexists; (split; [reflexivity|done]).
Qed.

Lemma forallb_is_record lines :
  forallb is_record lines = true -> Forall record lines.
Proof.
  induction lines as [|l lines IH]; [constructor|]. simpl.
  intros [Hl Hls]%andb_true_iff.
  constructor; [now apply is_record_true|now apply IH].
Qed.

Lemma not_record_cases line :
  ~ record line -> decoded line = None \/ decoded line = Some VNone.
Proof.
  intros H. destruct (decoded line) as [v|] eqn:E; [|now left].
  destruct v; try (exfalso; apply H; eexists; split; [exact E|done]).
  now right.
Qed.

Lemma read_records_Raise lines lineno acc line :
  line ∈ lines -> ~ record line ->
  exists why bad k, read_records lines lineno acc
                    = Raise (InvalidLineError why bad k).
Proof.
  intros Hin Hbad. revert lineno acc.
  induction lines as [|l lines IH]; intros lineno acc;
    [by apply elem_of_nil in Hin|].
  cbn [read_records].
  destruct (decoded l) as [v|] eqn:Ed; [|eauto].
  apply elem_of_cons in Hin as [->|Hin].
  - destruct (not_record_cases _ Hbad) as [E|E]; rewrite E in Ed;
      [done|]. injection Ed as <-. eauto.
  - destruct v; try apply (IH Hin). eauto.
Qed.

Lemma read_records_Raise_inv lines lineno acc e :
  read_records lines lineno acc = Raise e ->
  exists why bad k, e = InvalidLineError why bad k.
Proof.
  revert lineno acc. induction lines as [|l lines IH]; intros lineno acc;
    [done|].
  cbn [read_records].
  destruct (decoded l) as [v|]; [|intros [= <-]; eauto].
  destruct v; try apply IH. intros [= <-]. eauto.
Qed.

(** *** Blank lines *)

Lemma skip_ws_blank line : blank line = true -> skip_ws line = [].
Proof.
  unfold blank. induction line as [|c line IH]; [done|]. simpl.
  intros [Hc Hl]%andb_true_iff. rewrite Hc. now apply IH.
Qed.

Lemma blank_not_decoded line : blank line = true -> decoded line = None.
Proof.
  intros Hb. unfold decoded.
  assert (jsonlines.skip_initial line = line) as ->.
  { destruct line as [|c line]; [done|]. unfold jsonlines.skip_initial.
    simpl in Hb. apply andb_true_iff in Hb as [Hc _].
    rewrite decide_False; [done|].
    unfold jsonlines.SKIPPABLE_SINGLE_INITIAL_CHARS.
    intros Hin. unfold is_ws in Hc. apply bool_decide_eq_true in Hc.
    rewrite !elem_of_cons in Hin.
    destruct Hin as [->|[->|Hin]]; [lia|lia|by apply elem_of_nil in Hin]. }
  unfold loads. destruct (startswith line _); [done|].
  unfold decode. now rewrite (skip_ws_blank _ Hb).
Qed.

Lemma record_nonblank line : record line -> blank line = false.
Proof.
  intros (v & Hd & _). destruct (blank line) eqn:E; [|done].
  now rewrite (blank_not_decoded _ E) in Hd.
Qed.

Lemma nonblank_lines_all text :
  Forall record (lines_of text) -> nonblank_lines text = lines_of text.
Proof.
  unfold nonblank_lines. induction 1 as [|l ls Hl _ IH]; [done|].
  cbn [filter list_filter]. rewrite (record_nonblank _ Hl).
  rewrite decide_True by done. now f_equal.
Qed.

(** *** Lines of text decoded from UTF-8 *)

Lemma universal_newlines_valid s :
  valid_text s -> valid_text (universal_newlines s).
Proof.
  intros H. induction s as [s IH] using (induction_ltof1 _ (@length N)).
  unfold ltof in IH.
  destruct s as [|c s]; [constructor|]. cbn [universal_newlines].
  inversion H as [|? ? Hc Hs]; subst.
  case_decide.
  - constructor; [done|]. destruct s as [|d s]; [constructor|].
    inversion Hs; subst.
    case_decide; apply IH; simpl; try lia; done.
  - constructor; [done|]. apply IH; [simpl; lia|done].
Qed.

Lemma readlines_from_valid s line :
  valid_text s -> valid_text line ->
  Forall valid_text (readlines_from s line).
Proof.
  intros Hs. revert line. induction Hs as [|c s Hc Hs IH]; intros line Hl.
  - simpl. destruct line; repeat constructor; inversion Hl; done.
  - simpl. assert (valid_text (line ++ [c]))
      by (apply Forall_app; split; [done|now constructor]).
    case_decide.
    + constructor; [done|]. apply IH. constructor.
    + now apply IH.
Qed.

Lemma lines_of_valid text :
  valid_text text -> Forall valid_text (lines_of text).
Proof.
  intros H. unfold lines_of, readlines.
  apply readlines_from_valid; [|constructor].
  apply universal_newlines_valid. unfold utf_8_sig.
  destruct text as [|c text]; [constructor|].
  case_decide; [now inversion H|done].
Qed.

Lemma skip_initial_valid line :
  valid_text line -> valid_text (jsonlines.skip_initial line).
Proof.
  intros H. unfold jsonlines.skip_initial.
  destruct line as [|c line]; [done|].
  case_decide; [now inversion H|done].
Qed.

Lemma decoded_wf line v : valid_text line -> decoded line = Some v -> wf v.
Proof. intros Hl. apply loads_wf. now apply skip_initial_valid. Qed.

Lemma decoded_all_wf lines vs :
  Forall valid_text lines -> decoded_all lines vs -> Forall wf vs.
Proof.
  intros Hl Hd. revert Hl.
  induction Hd as [|line v lines vs [Hv _] _ IH]; intros Hl; [constructor|].
  inversion Hl; subst. constructor; [|now apply IH].
  now apply (decoded_wf line).
Qed.

Lemma decoded_all_lookup lines vs i :
  decoded_all lines vs -> vs !! i = lines !! i ≫= decoded.
Proof.
  intros H. revert i. induction H as [|line v lines vs [Hv _] _ IH];
    intros [|i]; simpl; done.
Qed.

Lemma decoded_all_length lines vs :
  decoded_all lines vs -> length vs = length lines.
Proof. intros H. symmetry. exact (Forall2_length _ _ _ H). Qed.
End Lines.

Section Claims.
Context {FM : FloatModel}.
Import prep_json ldjson.

Lemma read_records_blank pre line post lineno acc :
  Forall record pre -> decoded line = None ->
  read_records (pre ++ line :: post) lineno acc
  = Raise (InvalidLineError invalid_json (jsonlines.skip_initial line)
             (lineno + length pre)).
Proof.
  intros Hpre Hline. revert lineno acc.
  induction Hpre as [|l pre (v & Hd & Hv) _ IH]; intros lineno acc.
  - cbn [app read_records length]. rewrite Hline. now rewrite Nat.add_0_r.
  - cbn [app read_records length]. rewrite Hd.
    rewrite Nat.add_succ_r, <- Nat.add_succ_l.
    destruct v; try apply IH. done.
Qed.

Lemma newline_indent_spaces level :
  newline_indent level = 10 :: repeat 32 (4 * level).
Proof.
  unfold newline_indent. f_equal.
  induction level as [|level IH]; [done|].
  replace (4 * S level)%nat with (4 + 4 * level)%nat by lia.
  rewrite repeat_app, <- IH. reflexivity.
Qed.


(** The run on a readable input all of whose lines are records, with a
    writable output. *)
Lemma run_records input_file output_file w text :
  files w !! input_file = Some text -> input_file ∉ no_read w ->
  output_file ∉ no_write w -> Forall record (lines_of text) ->
  exists vs,
    decoded_all (lines_of text) vs
    /\ run_cases input_file output_file w
       = (Return tt,
          World (<[output_file := iterencode (VList vs)]> (files w))
            (no_read w) (no_write w)
            (stdout w ++ [combined input_file output_file])
            (trace w ++ [EvOpen input_file R; EvClose input_file;
                         EvOpen output_file W;
                         EvWrite output_file (iterencode (VList vs));
                         EvClose output_file])).
Proof.
  intros Hf Hr Hw Hrec. unfold run_cases. rewrite Hf.
  rewrite decide_False by done.
  destruct (read_records_Return _ 1%nat [] Hrec) as (vs & -> & Hvs).
  rewrite decide_False by done. exists vs. done.
Qed.

(** A run that returns has read records only and written their array. *)
Lemma run_Return_inv input_file output_file w w' :
  run_cases input_file output_file w = (Return tt, w') ->
  exists text vs,
    files w !! input_file = Some text
    /\ decoded_all (lines_of text) vs
    /\ w' = World (<[output_file := iterencode (VList vs)]> (files w))
              (no_read w) (no_write w)
              (stdout w ++ [combined input_file output_file])
              (trace w ++ [EvOpen input_file R; EvClose input_file;
                           EvOpen output_file W;
                           EvWrite output_file (iterencode (VList vs));
                           EvClose output_file]).
Proof.
  unfold run_cases. destruct (files w !! input_file) as [text|]; [|done].
  case_decide; [done|].
  destruct (read_records _ _ _) as [objs|e] eqn:Er; [|done].
  case_decide; [done|]. intros [= <-].
  destruct (read_records_Return_inv _ _ _ _ Er) as (vs & -> & Hvs).
  exists text, vs. done.
Qed.

Context {FL : FloatLaws FM}.

(** The array in the output document is the list of decoded records. *)
Lemma array_at_written w path lines vs :
  Forall valid_text lines -> decoded_all lines vs ->
  files w !! path = Some (iterencode (VList vs)) ->
  array_at w path = Some vs.
Proof.
  intros Hl Hd Hf. unfold array_at. rewrite Hf. cbn [mbind option_bind].
  rewrite loads_iterencode; [done|].
  constructor. now apply (decoded_all_wf lines).
Qed.
End Claims.

#[local] Existing Instance DecimalFloat.model.

Ltac compute_decision :=
  unfold well_formed, valid_text;
  apply (bool_decide_unpack _); vm_compute; exact I.

(** ** C1 *)

(** C1, as stated, fails: an input with two non-blank lines, each a JSON
    value, and a blank line between them makes the run raise at the blank
    line; no output array is produced. *)
Lemma cardinality_fails_on_blank_line :
  let text := sample "{'a': 1}||{'b': 2}|" in
  well_formed (FM := DecimalFloat.model) text
  /\ length (nonblank_lines text) = 2%nat
  /\ (sample_run text).1 = Raise (InvalidLineError invalid_json [10] 2)
  /\ ~ (exists out, array_at (sample_run text).2 (lit "out.json") = Some out
                    /\ length out = 2%nat).
Proof.
  cbv zeta. split; [compute_decision|]. split; [reflexivity|].
  split; [vm_compute; reflexivity|].
  assert (array_at (sample_run (sample "{'a': 1}||{'b': 2}|")).2
            (lit "out.json") = None) as E by (vm_compute; reflexivity).
  intros (out & H & _). rewrite E in H. discriminate.
Qed.

(** C1, amended: for every input file each of whose lines decodes to a
    JSON value other than null (so that none is blank), with [N] lines, and
    an output path that can be written, the run returns and the document at
    the output path is a JSON array with exactly [N] elements. *)
Theorem cardinality `{FM : FloatModel} `{!FloatLaws FM}
    (prog input_file output_file : str) (w : world) (text : str) :
  files w !! input_file = Some text -> input_file ∉ no_read w ->
  output_file ∉ no_write w ->
  valid_text text -> Forall record (lines_of text) ->
  (main [prog; input_file; output_file] w).1 = Return tt
  /\ exists out,
       array_at (main [prog; input_file; output_file] w).2 output_file
         = Some out
       /\ length out = length (nonblank_lines text).
Proof.
  intros Hf Hr Hw Hv Hrec. rewrite main_run.
  destruct (run_records _ output_file _ _ Hf Hr Hw Hrec) as (vs & Hvs & ->).
  split; [done|]. exists vs. split.
  - apply (array_at_written _ _ (lines_of text)); [now apply lines_of_valid|done|].
    cbn [files snd]. apply lookup_insert_eq.
  - rewrite nonblank_lines_all by done. now apply decoded_all_length.
Qed.

Lemma cardinality_witness :
  let text := sample "{'a': 1}|{'b': 2}|" in
  (sample_run text).1 = Return tt
  /\ exists out,
       array_at (sample_run text).2 (lit "out.json") = Some out
       /\ length out = length (nonblank_lines text).
Proof.
  cbv zeta.
  apply (@cardinality DecimalFloat.model decimal_float_laws
           (lit "prep-json.py") (lit "in.jsonl") (lit "out.json")
           (sample_world (sample "{'a': 1}|{'b': 2}|"))
           (sample "{'a': 1}|{'b': 2}|")).
  - vm_compute. reflexivity.
  - apply not_elem_of_empty.
  - apply not_elem_of_empty.
  - compute_decision.
  - apply forallb_is_record. vm_compute. reflexivity.
Defined.

(** ** C2 *)

(** C2, as stated, fails: with a whitespace-only line between two JSON
    lines the input is well formed and its second non-blank line decodes to
    [[2]], but the run raises at the blank line and there is no output
    array for an element to be in. *)
Lemma order_fails_on_blank_line :
  let text := sample "[1]| |[2]|" in
  well_formed text
  /\ nonblank_lines text !! 1%nat ≫= decoded = Some (VList [VInt 2])
  /\ (sample_run text).1 = Raise (InvalidLineError invalid_json [32; 10] 2)
  /\ array_at (sample_run text).2 (lit "out.json") ≫= (.!! 1%nat)
     <> nonblank_lines text !! 1%nat ≫= decoded.
Proof.
  cbv zeta. split; [compute_decision|]. split; [vm_compute; reflexivity|].
  split; [vm_compute; reflexivity|].
  assert (array_at (sample_run (sample "[1]| |[2]|")).2 (lit "out.json")
            ≫= (.!! 1%nat) = None) as -> by (vm_compute; reflexivity).
  assert (nonblank_lines (sample "[1]| |[2]|") !! 1%nat ≫= decoded
          = Some (VList [VInt 2])) as -> by (vm_compute; reflexivity).
  discriminate.
Qed.

(** C2, amended: for every input file each of whose lines decodes to a
    JSON value other than null (so that none is blank), and an output path
    that can be written, the [i]-th element of the output array is, for
    every index [i], the JSON value decoded from the [i]-th non-blank line
    of the input file. *)
Theorem order_preserved `{FM : FloatModel} `{!FloatLaws FM}
    (prog input_file output_file : str) (w : world) (text : str) :
  files w !! input_file = Some text -> input_file ∉ no_read w ->
  output_file ∉ no_write w ->
  valid_text text -> Forall record (lines_of text) ->
  exists out,
    array_at (main [prog; input_file; output_file] w).2 output_file = Some out
    /\ forall i, out !! i = nonblank_lines text !! i ≫= decoded.
Proof.
  intros Hf Hr Hw Hv Hrec. rewrite main_run.
  destruct (run_records _ output_file _ _ Hf Hr Hw Hrec) as (vs & Hvs & ->).
  exists vs. split.
  - apply (array_at_written _ _ (lines_of text)); [now apply lines_of_valid|done|].
    cbn [files snd]. apply lookup_insert_eq.
  - intros i. rewrite nonblank_lines_all by done.
    now apply decoded_all_lookup.
Qed.

Lemma order_preserved_witness :
  let text := sample "{'k': [1, 2]}|'two'|3|" in
  exists out,
    array_at (sample_run text).2 (lit "out.json") = Some out
    /\ forall i, out !! i = nonblank_lines text !! i ≫= decoded.
Proof.
  cbv zeta.
  apply (@order_preserved DecimalFloat.model decimal_float_laws
           (lit "prep-json.py") (lit "in.jsonl") (lit "out.json")
           (sample_world (sample "{'k': [1, 2]}|'two'|3|"))
           (sample "{'k': [1, 2]}|'two'|3|")).
  - vm_compute. reflexivity.
  - apply not_elem_of_empty.
  - apply not_elem_of_empty.
  - compute_decision.
  - apply forallb_is_record. vm_compute. reflexivity.
Defined.

(** ** C3 *)

(** C3, as stated, fails: on [1], a blank line, [2] the run raises and
    writes nothing, while on the same input without the blank line it
    returns and writes the array of 1 and 2. *)
Lemma blank_line_not_skipped :
  let text := sample "1||2|" in
  let text' := sample "1|2|" in
  lines_of text' = nonblank_lines text
  /\ (sample_run text).1 = Raise (InvalidLineError invalid_json [10] 2)
  /\ files (sample_run text).2 !! lit "out.json" = None
  /\ (sample_run text').1 = Return tt
  /\ array_at (sample_run text').2 (lit "out.json") = Some [VInt 1; VInt 2].
Proof. cbv zeta. repeat split; vm_compute; reflexivity. Qed.

(** C3, amended: for every input file in which a blank line follows only
    lines that decode to JSON values other than null, the run does not skip
    it: it raises [InvalidLineError] for that line, with its line number,
    exits with status 1, prints nothing and leaves every file as it was. *)
Theorem blank_line_raises `{FM : FloatModel}
    (prog input_file output_file : str) (w : world) (text : str)
    (pre : list str) (line : str) (post : list str) :
  files w !! input_file = Some text -> input_file ∉ no_read w ->
  lines_of text = pre ++ line :: post ->
  Forall record pre -> blank line = true ->
  (main [prog; input_file; output_file] w).1
    = Raise (InvalidLineError invalid_json line (S (length pre)))
  /\ exit_status (main [prog; input_file; output_file] w).1 = 1%Z
  /\ stdout (main [prog; input_file; output_file] w).2 = stdout w
  /\ files (main [prog; input_file; output_file] w).2 = files w.
Proof.
  intros Hf Hr Hl Hpre Hb. rewrite main_run. unfold run_cases.
  rewrite Hf, decide_False by done. rewrite Hl.
  rewrite (read_records_blank pre line post 1 [] Hpre
             (blank_not_decoded _ Hb)).
  assert (jsonlines.skip_initial line = line) as ->.
  { pose proof (blank_not_decoded _ Hb) as Hd.
    destruct line as [|c line]; [done|]. unfold jsonlines.skip_initial.
    simpl in Hb. apply andb_true_iff in Hb as [Hc _].
    rewrite decide_False; [done|].
    unfold jsonlines.SKIPPABLE_SINGLE_INITIAL_CHARS.
    unfold is_ws in Hc. apply bool_decide_eq_true in Hc.
    rewrite !elem_of_cons. intros [->|[->|Hin]];
      [lia|lia|by apply elem_of_nil in Hin]. }
  done.
Qed.

Lemma blank_line_raises_witness :
  let text := sample "{'a': 1}|[]|  |{'b': 2}|" in
  (sample_run text).1 = Raise (InvalidLineError invalid_json [32; 32; 10] 3)
  /\ exit_status (sample_run text).1 = 1%Z
  /\ stdout (sample_run text).2 = stdout (sample_world text)
  /\ files (sample_run text).2 = files (sample_world text).
Proof.
  cbv zeta.
  apply (@blank_line_raises DecimalFloat.model
           (lit "prep-json.py") (lit "in.jsonl") (lit "out.json")
           (sample_world (sample "{'a': 1}|[]|  |{'b': 2}|"))
           (sample "{'a': 1}|[]|  |{'b': 2}|")
           [sample "{'a': 1}|"; sample "[]|"] [32; 32; 10]
           [sample "{'b': 2}|"]).
  - vm_compute. reflexivity.
  - apply not_elem_of_empty.
  - vm_compute. reflexivity.
  - apply forallb_is_record. vm_compute. reflexivity.
  - reflexivity.
Defined.

(** ** C4 *)

(** C4, as stated, fails: [null] on a line of its own is a JSON value, so
    the input is well formed, but the reader refuses it: the run raises and
    no output document is written, so no element stands for that line. *)
Lemma fidelity_fails_on_null_line :
  let text := sample "{'a': 1}|null|" in
  well_formed text
  /\ nonblank_lines text !! 1%nat ≫= loads = Some VNone
  /\ (sample_run text).1
     = Raise (InvalidLineError null_value (sample "null|") 2)
  /\ ~ (exists doc out,
          files (sample_run text).2 !! lit "out.json" = Some doc
          /\ loads doc = Some (VList out)
          /\ Forall2 (fun line v => loads line = Some v)
               (nonblank_lines text) out).
Proof.
  cbv zeta. split; [compute_decision|]. split; [vm_compute; reflexivity|].
  split; [vm_compute; reflexivity|].
  assert (files (sample_run (sample "{'a': 1}|null|")).2 !! lit "out.json"
          = None) as E by (vm_compute; reflexivity).
  intros (doc & out & H & _). rewrite E in H. discriminate.
Qed.

(** C4, amended: for every input file each of whose lines decodes to a
    JSON value other than null, and an output path that can be written,
    decoding the written document gives an array whose elements are, one
    for one, the values decoded from the input lines: serialization with an
    indent of 4 followed by parsing gives each record back, with the same
    keys in the same order and the same values. *)
Theorem value_fidelity `{FM : FloatModel} `{!FloatLaws FM}
    (prog input_file output_file : str) (w : world) (text : str) :
  files w !! input_file = Some text -> input_file ∉ no_read w ->
  output_file ∉ no_write w ->
  valid_text text -> Forall record (lines_of text) ->
  exists doc out,
    files (main [prog; input_file; output_file] w).2 !! output_file = Some doc
    /\ doc = iterencode (VList out)
    /\ loads doc = Some (VList out)
    /\ Forall2 (fun line v => decoded line = Some v) (lines_of text) out.
Proof.
  intros Hf Hr Hw Hv Hrec. rewrite main_run.
  destruct (run_records _ output_file _ _ Hf Hr Hw Hrec) as (vs & Hvs & ->).
  exists (iterencode (VList vs)), vs. cbn [files snd].
  split; [apply lookup_insert_eq|]. split; [done|]. split.
  - apply loads_iterencode. constructor.
    apply (decoded_all_wf (lines_of text)); [now apply lines_of_valid|done].
  - eapply Forall2_impl; [exact Hvs|]. now intros line v [? _].
Qed.

Lemma value_fidelity_witness :
  let text :=
    sample "{'b': {'x': [true, false, 'caf\u00e9 \ud83d\ude00\n'], 'a': -12}, 'b': 2.5e-3}|[[], {}, 1e999]|" in
  exists doc out,
    files (sample_run text).2 !! lit "out.json" = Some doc
    /\ doc = iterencode (VList out)
    /\ loads doc = Some (VList out)
    /\ Forall2 (fun line v => decoded line = Some v) (lines_of text) out.
Proof.
  cbv zeta.
  apply (@value_fidelity DecimalFloat.model decimal_float_laws
           (lit "prep-json.py") (lit "in.jsonl") (lit "out.json")).
  - vm_compute. reflexivity.
  - apply not_elem_of_empty.
  - apply not_elem_of_empty.
  - compute_decision.
  - apply forallb_is_record. vm_compute. reflexivity.
Defined.

(** ** C5 *)

(** C5: with anything but two arguments after the program name, the run
    prints the usage message on standard output and ends with exit status
    1; it performs no file operation and leaves every file as it was. *)
Theorem usage_error `{FM : FloatModel} (argv : list str) (w : world) :
  length argv <> 3%nat ->
  (main argv w).1 = Raise (SystemExit 1)
  /\ exit_status (main argv w).1 = 1%Z
  /\ stdout (main argv w).2
     = stdout w
         ++ [lit "Usage: python prep-json.py <input_file> <output_file>"]
  /\ trace (main argv w).2 = trace w
  /\ files (main argv w).2 = files w.
Proof. intros H. now rewrite main_usage. Qed.

Lemma usage_error_witness :
  let argv := [lit "prep-json.py"; lit "in.jsonl"] in
  let w := sample_world (sample "{'a': 1}|") in
  (main argv w).1 = Raise (SystemExit 1)
  /\ exit_status (main argv w).1 = 1%Z
  /\ stdout (main argv w).2
     = stdout w
         ++ [lit "Usage: python prep-json.py <input_file> <output_file>"]
  /\ trace (main argv w).2 = trace w
  /\ files (main argv w).2 = files w.
Proof.
  cbv zeta.
  apply (@usage_error DecimalFloat.model
           [lit "prep-json.py"; lit "in.jsonl"]
           (sample_world (sample "{'a': 1}|"))).
  simpl. lia.
Defined.

(** ** C6 *)



(** ** C7 *)



(** ** C8 *)

(** C8: every run that returns ends with exit status 0 and prints exactly
    one line, [Combined JSON objects from I into O], for the input path [I]
    and the output path [O]. *)
Theorem confirmation_printed `{FM : FloatModel}
    (prog input_file output_file : str) (w : world) :
  (main [prog; input_file; output_file] w).1 = Return tt ->
  exit_status (main [prog; input_file; output_file] w).1 = 0%Z
  /\ stdout (main [prog; input_file; output_file] w).2
     = stdout w ++ [lit "Combined JSON objects from " ++ input_file
                      ++ lit " into " ++ output_file].
Proof.
  rewrite main_run.
  destruct (run_cases input_file output_file w) as [r w'] eqn:E.
  cbn [fst snd]. intros ->.
  destruct (run_Return_inv _ _ _ _ E) as (text & vs & Hf & Hvs & ->).
  done.
Qed.

Lemma confirmation_printed_witness :
  let text := sample "{'a': 1}|" in
  exit_status (sample_run text).1 = 0%Z
  /\ stdout (sample_run text).2
     = stdout (sample_world text)
         ++ [lit "Combined JSON objects from " ++ lit "in.jsonl"
               ++ lit " into " ++ lit "out.json"].
Proof.
  cbv zeta.
  apply (@confirmation_printed DecimalFloat.model
           (lit "prep-json.py") (lit "in.jsonl") (lit "out.json")
           (sample_world (sample "{'a': 1}|"))).
  vm_compute. reflexivity.
Defined.

(** ** C9 *)

(** C9: when the input cannot be opened, or one of its lines is not a JSON
    value the reader accepts, the run raises before the output file is
    opened: the only file operations are opening and closing the input, and
    every file, the one at the output path included, is as it was. *)
Theorem read_failure_leaves_output `{FM : FloatModel}
    (prog input_file output_file : str) (w : world) :
  (files w !! input_file = None \/ input_file ∈ no_read w
   \/ exists text line,
        files w !! input_file = Some text
        /\ line ∈ lines_of text /\ ~ record line) ->
  (exists e,
     (main [prog; input_file; output_file] w).1 = Raise e
     /\ (e = OSError input_file
         \/ exists why bad lineno, e = InvalidLineError why bad lineno))
  /\ files (main [prog; input_file; output_file] w).2 = files w
  /\ (trace (main [prog; input_file; output_file] w).2 = trace w
      \/ trace (main [prog; input_file; output_file] w).2
         = trace w ++ [EvOpen input_file R; EvClose input_file])
  /\ EvOpen output_file W
       ∉ drop (length (trace w))
           (trace (main [prog; input_file; output_file] w).2).
Proof.
  intros H. rewrite main_run. unfold run_cases.
  destruct (files w !! input_file) as [text|] eqn:Hf.
  2:{ cbn [fst snd]. split; [eauto|]. split; [done|]. split; [now left|].
      rewrite drop_all. apply not_elem_of_nil. }
  destruct (decide (input_file ∈ no_read w)) as [Hr|Hr].
  { cbn [fst snd]. split; [eauto|]. split; [done|]. split; [now left|].
    rewrite drop_all. apply not_elem_of_nil. }
  destruct H as [H|[H|(text' & line & Hf' & Hin & Hbad)]]; [done|done|].
  injection Hf' as <-.
  destruct (read_records_Raise (lines_of text) 1 [] line Hin Hbad)
    as (why & bad & k & ->).
  cbn [fst snd files trace add_trace].
  split; [eauto 10|]. split; [done|]. split; [now right|].
  rewrite drop_app_length.
  intros [?|[?|?%elem_of_nil]%elem_of_cons]%elem_of_cons; done.
Qed.

Lemma read_failure_leaves_output_witness :
  let w :=
    fresh {[ lit "in.jsonl" := sample "{'a': 1}|null|";
             lit "out.json" := sample "[]" ]} ∅ ∅ in
  (exists e,
     (main sample_argv w).1 = Raise e
     /\ (e = OSError (lit "in.jsonl")
         \/ exists why bad lineno, e = InvalidLineError why bad lineno))
  /\ files (main sample_argv w).2 = files w
  /\ (trace (main sample_argv w).2 = trace w
      \/ trace (main sample_argv w).2
         = trace w ++ [EvOpen (lit "in.jsonl") R; EvClose (lit "in.jsonl")])
  /\ EvOpen (lit "out.json") W
       ∉ drop (length (trace w)) (trace (main sample_argv w).2).
Proof.
  cbv zeta.
  apply (@read_failure_leaves_output DecimalFloat.model
           (lit "prep-json.py") (lit "in.jsonl") (lit "out.json")).
  right. right. exists (sample "{'a': 1}|null|"), (sample "null|").
  split; [vm_compute; reflexivity|]. split.
  - apply (list_elem_of_lookup_2 _ 1%nat). vm_compute. reflexivity.
  - assert (decoded (sample "null|") = Some VNone) as E
      by (vm_compute; reflexivity).
    intros (v & Hv & Hne). rewrite E in Hv. congruence.
Defined.

(** ** C10 *)

(** C10, as stated, fails: a file that holds one empty line has no
    non-blank line, yet the run raises at that line, with exit status 1,
    and writes nothing. *)
Lemma blank_only_input_fails :
  let text := sample "|" in
  nonblank_lines text = []
  /\ (sample_run text).1 = Raise (InvalidLineError invalid_json [10] 1)
  /\ (sample_run text).1 <> Return tt
  /\ exit_status (sample_run text).1 = 1%Z
  /\ files (sample_run text).2 !! lit "out.json" = None.
Proof.
  cbv zeta. split; [reflexivity|]. split; [vm_compute; reflexivity|].
  assert ((sample_run (sample "|")).1
          = Raise (InvalidLineError invalid_json [10] 1)) as E
    by (vm_compute; reflexivity).
  split; [rewrite E; discriminate|]. split; vm_compute; reflexivity.
Qed.

(** C10, amended: for an input file with no line at all (an empty file),
    and an output path that can be written, the run returns: it writes a
    document that is the empty array, prints the confirmation message and
    ends with exit status 0. *)
Theorem empty_input `{FM : FloatModel}
    (prog input_file output_file : str) (w : world) (text : str) :
  files w !! input_file = Some text -> input_file ∉ no_read w ->
  output_file ∉ no_write w -> lines_of text = [] ->
  (main [prog; input_file; output_file] w).1 = Return tt
  /\ exit_status (main [prog; input_file; output_file] w).1 = 0%Z
  /\ files (main [prog; input_file; output_file] w).2 !! output_file
     = Some (lit "[]")
  /\ array_at (main [prog; input_file; output_file] w).2 output_file
     = Some []
  /\ stdout (main [prog; input_file; output_file] w).2
     = stdout w ++ [combined input_file output_file].
Proof.
  intros Hf Hr Hw Hl. rewrite main_run. unfold run_cases.
  rewrite Hf, decide_False by done. rewrite Hl. cbn [read_records].
  rewrite decide_False by done. cbn [fst snd files stdout exit_status].
  unfold array_at. cbn [files]. rewrite lookup_insert_eq.
  repeat split; reflexivity.
Qed.

Lemma empty_input_witness :
  (sample_run []).1 = Return tt
  /\ exit_status (sample_run []).1 = 0%Z
  /\ files (sample_run []).2 !! lit "out.json" = Some (lit "[]")
  /\ array_at (sample_run []).2 (lit "out.json") = Some []
  /\ stdout (sample_run []).2
     = stdout (sample_world [])
         ++ [combined (lit "in.jsonl") (lit "out.json")].
Proof.
  apply (@empty_input DecimalFloat.model
           (lit "prep-json.py") (lit "in.jsonl") (lit "out.json")
           (sample_world []) []).
  - vm_compute. reflexivity.
  - apply not_elem_of_empty.
  - apply not_elem_of_empty.
  - reflexivity.
Defined.

(** * Further properties of the script *)


Lemma decoded_all_record `{FM : FloatModel} lines vs :
  decoded_all lines vs -> Forall record lines.
Proof.
  induction 1 as [|line v lines vs [Hd Hv] _ IH]; constructor; [|done].
  now exists v.
Qed.

Lemma decoded_all_fun `{FM : FloatModel} lines vs vs' :
  decoded_all lines vs -> decoded_all lines vs' -> vs = vs'.
Proof.
  intros H. revert vs'.
  induction H as [|l v ls vs [Hd _] _ IH]; intros vs' H';
    inversion H' as [|? v' ? vs'' [Hd' _] Hrest]; subst; [done|].
  f_equal; [congruence|now apply IH].
Qed.

(** What a returning run says of the world it started in. *)
Lemma run_Return_conditions `{FM : FloatModel} input_file output_file w :
  (run_cases input_file output_file w).1 = Return tt ->
  exists text,
    files w !! input_file = Some text /\ (input_file ∉ no_read w)
    /\ Forall record (lines_of text) /\ output_file ∉ no_write w.
Proof.
  unfold run_cases. destruct (files w !! input_file) as [text|]; [|done].
  case_decide; [done|].
  destruct (read_records _ _ _) as [objs|e] eqn:Er; [|done].
  case_decide; [done|]. intros _.
  destruct (read_records_Return_inv _ _ _ _ Er) as (vs & _ & Hvs).
  exists text. repeat split; try done. now apply (decoded_all_record _ vs).
Qed.

Lemma length_3 {A} (l : list A) :
  length l = 3%nat -> exists a b c, l = [a; b; c].
Proof.
  destruct l as [|a [|b [|c [|d l]]]]; try done. intros _. now exists a, b, c.
Qed.

(** The run on a readable input of records when the output cannot be
    opened. *)
Lemma run_refused `{FM : FloatModel} input_file output_file w text :
  files w !! input_file = Some text -> input_file ∉ no_read w ->
  Forall record (lines_of text) -> output_file ∈ no_write w ->
  run_cases input_file output_file w
  = (Raise (OSError output_file),
     add_trace w [EvOpen input_file R; EvClose input_file]).
Proof.
  intros Hf Hr Hrec Hw. unfold run_cases. rewrite Hf.
  rewrite decide_False by done.
  destruct (read_records_Return _ 1%nat [] Hrec) as (vs & -> & Hvs).
  now rewrite decide_True.
Qed.

(** The first line that is not a record stops the reader. *)
Lemma read_records_first_bad `{FM : FloatModel} pre line post lineno acc :
  Forall record pre -> ~ record line ->
  read_records (pre ++ line :: post) lineno acc
  = Raise (InvalidLineError
             (if decoded line is Some _ then null_value else invalid_json)
             (jsonlines.skip_initial line) (lineno + length pre)).
Proof.
  intros Hpre Hline. revert lineno acc.
  induction Hpre as [|l pre (v & Hd & Hv) _ IH]; intros lineno acc.
  - cbn [app read_records length]. rewrite Nat.add_0_r.
    destruct (not_record_cases _ Hline) as [-> | ->]; done.
  - cbn [app read_records length]. rewrite Hd.
    rewrite Nat.add_succ_r, <- Nat.add_succ_l.
    destruct v; try apply IH. done.
Qed.

(** The first line of a printed array that is not empty. *)
Lemma lines_of_array `{FM : FloatModel} v vs :
  exists rest, lines_of (iterencode (VList (v :: vs))) = [91; 10] :: rest.
Proof.
  unfold iterencode. cbn [_iterencode _iterencode_list].
  unfold newline_indent at 1. cbn [app].
  unfold lines_of, utf_8_sig. rewrite decide_False by done.
  cbn [universal_newlines]. rewrite !decide_False by done.
  unfold readlines. cbn [readlines_from]. rewrite decide_False by done.
  rewrite decide_True by done. cbn [app]. eauto.
Qed.

Lemma bracket_alone `{FM : FloatModel} :
  decoded [91; 10] = None.
Proof. reflexivity. Qed.

(** A run on two arguments returns after printing the confirmation, or
    raises, with something other than [SystemExit], and prints nothing. *)
Lemma run_cases_outcome `{FM : FloatModel} input_file output_file w :
  (exists w',
     run_cases input_file output_file w = (Return tt, w')
     /\ stdout w' = stdout w ++ [combined input_file output_file])
  \/ (exists e w',
        run_cases input_file output_file w = (Raise e, w')
        /\ stdout w' = stdout w /\ forall code, e <> SystemExit code).
Proof.
  unfold run_cases.
  destruct (files w !! input_file) as [text|]; [|right; eauto 10].
  case_decide; [right; eauto 10|].
  destruct (read_records _ _ _) as [objs|e] eqn:Er.
  - case_decide; [right; eauto 10|left; eauto].
  - destruct (read_records_Raise_inv _ _ _ _ Er) as (? & ? & ? & ->).
    right. eauto 10.
Qed.

(** ** The outcome of a run *)

(** X1: The run returns exactly when it is given two arguments, the input
    file exists and can be read, each of its lines decodes to a JSON value
    other than null, and the output file can be opened for writing. *)
Theorem success_iff `{FM : FloatModel} (argv : list str) (w : world) :
  (main argv w).1 = Return tt <->
  exists prog input_file output_file text,
    argv = [prog; input_file; output_file]
    /\ files w !! input_file = Some text /\ (input_file ∉ no_read w)
    /\ Forall record (lines_of text) /\ output_file ∉ no_write w.
Proof.
  split.
  - destruct (decide (length argv = 3%nat)) as [Hlen|Hlen].
    + destruct (length_3 _ Hlen) as (prog & i & o & ->).
      rewrite main_run. intros H.
      destruct (run_Return_conditions _ _ _ H) as (text & ?).
      now exists prog, i, o, text.
    + now rewrite main_usage.
  - intros (prog & i & o & text & -> & Hf & Hr & Hrec & Hw).
    rewrite main_run.
    now destruct (run_records _ o _ _ Hf Hr Hw Hrec) as (vs & _ & ->).
Qed.

(** X2: The subscripts [sys.argv[1]] and [sys.argv[2]] are in bounds whenever
    they are evaluated: no run raises [IndexError]. *)
Theorem argv_in_bounds `{FM : FloatModel} (argv : list str) (w : world) :
  (main argv w).1 <> Raise IndexError.
Proof.
  destruct (decide (length argv = 3%nat)) as [Hlen|Hlen].
  - destruct (length_3 _ Hlen) as (prog & i & o & ->).
    rewrite main_run. unfold run_cases.
    destruct (files w !! i) as [text|]; [|done].
    case_decide; [done|].
    destruct (read_records _ _ _) as [objs|e] eqn:Er.
    + now case_decide.
    + destruct (read_records_Raise_inv _ _ _ _ Er) as (? & ? & ? & ->).
      done.
  - now rewrite main_usage.
Qed.

(** X3: Every run prints at most one line and ends with status 0 or 1: the
    usage line with status 1 when the number of arguments is wrong, the
    confirmation with status 0 when the run returns, and nothing with status
    1 when it raises after the arguments were read. *)
Theorem stdout_cases `{FM : FloatModel} (argv : list str) (w : world) :
  exists out,
    stdout (main argv w).2 = stdout w ++ out
    /\ ((length argv <> 3%nat /\ out = [usage]
         /\ exit_status (main argv w).1 = 1%Z)
        \/ (exists prog input_file output_file,
              argv = [prog; input_file; output_file]
              /\ out = [combined input_file output_file]
              /\ exit_status (main argv w).1 = 0%Z)
        \/ (length argv = 3%nat /\ out = []
            /\ exit_status (main argv w).1 = 1%Z)).
Proof.
  destruct (decide (length argv = 3%nat)) as [Hlen|Hlen].
  - destruct (length_3 _ Hlen) as (prog & i & o & ->).
    rewrite main_run.
    destruct (run_cases_outcome i o w)
      as [(w' & -> & Hout)|(e & w' & -> & Hout & He)]; cbn [fst snd].
    + exists [combined i o]. split; [done|]. right. left.
      now exists prog, i, o.
    + exists []. rewrite app_nil_r. split; [done|]. right. right.
      repeat split. destruct e; try done. now destruct (He code).
  - rewrite main_usage by done. exists [usage]. cbn [fst snd stdout].
    split; [done|]. now left.
Qed.

(** ** Files *)

(** X4: When the input has been read and the output file cannot be opened
    for writing, the run raises [OSError] for the output path, with exit
    status 1: no file changes, nothing is printed, and the only file
    operations are opening and closing the input. *)
Theorem write_failure `{FM : FloatModel}
    (prog input_file output_file : str) (w : world) (text : str) :
  files w !! input_file = Some text -> input_file ∉ no_read w ->
  Forall record (lines_of text) -> output_file ∈ no_write w ->
  (main [prog; input_file; output_file] w).1 = Raise (OSError output_file)
  /\ exit_status (main [prog; input_file; output_file] w).1 = 1%Z
  /\ files (main [prog; input_file; output_file] w).2 = files w
  /\ stdout (main [prog; input_file; output_file] w).2 = stdout w
  /\ trace (main [prog; input_file; output_file] w).2
     = trace w ++ [EvOpen input_file R; EvClose input_file].
Proof.
  intros Hf Hr Hrec Hw. rewrite main_run.
  now rewrite (run_refused _ _ _ _ Hf Hr Hrec Hw).
Qed.

Lemma write_failure_witness :
  let text := sample "{'a': 1}|{'b': 2}|" in
  let w := sample_world_read_only text in
  (main sample_argv w).1 = Raise (OSError (lit "out.json"))
  /\ exit_status (main sample_argv w).1 = 1%Z
  /\ files (main sample_argv w).2 = files w
  /\ stdout (main sample_argv w).2 = stdout w
  /\ trace (main sample_argv w).2
     = trace w ++ [EvOpen (lit "in.jsonl") R; EvClose (lit "in.jsonl")].
Proof.
  cbv zeta.
  apply (@write_failure DecimalFloat.model
           (lit "prep-json.py") (lit "in.jsonl") (lit "out.json")
           (sample_world_read_only (sample "{'a': 1}|{'b': 2}|"))
           (sample "{'a': 1}|{'b': 2}|")).
  - vm_compute. reflexivity.
  - apply not_elem_of_empty.
  - apply forallb_is_record. vm_compute. reflexivity.
  - unfold sample_world_read_only, fresh. cbn [no_write].
    now apply elem_of_singleton_2.
Defined.



(** X6: In every run the file operations nest: a file is opened only when no
    other is open, written only while open for writing, and closed before
    the run ends, whether it returns or raises. *)
Theorem files_closed `{FM : FloatModel} (argv : list str) (w : world) :
  bracketed None (drop (length (trace w)) (trace (main argv w).2)) = true.
Proof.
  destruct (decide (length argv = 3%nat)) as [Hlen|Hlen].
  - destruct (length_3 _ Hlen) as (prog & i & o & ->).
    rewrite main_run. unfold run_cases.
    destruct (files w !! i) as [text|];
      [|cbn [snd]; now rewrite drop_all].
    case_decide; [cbn [snd]; now rewrite drop_all|].
    destruct (read_records _ _ _) as [objs|e].
    + case_decide; cbn [snd trace add_trace]; rewrite drop_app_length;
        cbn [bracketed]; rewrite ?bool_decide_eq_true_2 by done; done.
    + cbn [snd trace add_trace]. rewrite drop_app_length.
      cbn [bracketed]. now rewrite bool_decide_eq_true_2.
  - rewrite main_usage by done. cbn [snd trace]. now rewrite drop_all.
Qed.

(** ** Errors of the reader *)

(** X7: The exception names the first line that is not a record: its number,
    counted from 1 over all lines of the file, and its text without a
    leading record separator or byte order mark; the reason tells a line
    holding null from one that is not JSON. *)
Theorem first_bad_line_reported `{FM : FloatModel}
    (prog input_file output_file : str) (w : world) (text : str)
    (pre : list str) (line : str) (post : list str) :
  files w !! input_file = Some text -> input_file ∉ no_read w ->
  lines_of text = pre ++ line :: post ->
  Forall record pre -> ~ record line ->
  (main [prog; input_file; output_file] w).1
  = Raise (InvalidLineError
             (if decoded line is Some _ then null_value else invalid_json)
             (jsonlines.skip_initial line) (S (length pre))).
Proof.
  intros Hf Hr Hl Hpre Hline. rewrite main_run. unfold run_cases.
  rewrite Hf, decide_False by done. rewrite Hl.
  now rewrite (read_records_first_bad pre line post 1 [] Hpre Hline).
Qed.

Lemma first_bad_line_reported_witness :
  let text := sample "{'a': 1}|[2]|" ++ [0x1e] ++ sample "null|{'b'|" in
  (sample_run text).1
  = Raise (InvalidLineError null_value (sample "null|") 3).
Proof.
  cbv zeta.
  apply (@first_bad_line_reported DecimalFloat.model
           (lit "prep-json.py") (lit "in.jsonl") (lit "out.json")
           (sample_world
              (sample "{'a': 1}|[2]|" ++ [0x1e] ++ sample "null|{'b'|"))
           (sample "{'a': 1}|[2]|" ++ [0x1e] ++ sample "null|{'b'|")
           [sample "{'a': 1}|"; sample "[2]|"] ([0x1e] ++ sample "null|")
           [sample "{'b'|"]).
  - vm_compute. reflexivity.
  - apply not_elem_of_empty.
  - vm_compute. reflexivity.
  - apply forallb_is_record. vm_compute. reflexivity.
  - assert (decoded ([0x1e] ++ sample "null|") = Some VNone) as E
      by (vm_compute; reflexivity).
    intros (v & Hv & Hne). rewrite E in Hv. congruence.
Defined.

(** ** Runs in sequence *)

(** X8: The document a run writes is no input for another run, unless it is
    the empty array: when the input had at least one line, a second run
    that takes the output of the first as its input raises at line 1, which
    holds the opening bracket alone. *)
Theorem reconversion_fails `{FM : FloatModel}
    (prog input_file output_file prog' output_file' : str) (w : world)
    (text : str) :
  (main [prog; input_file; output_file] w).1 = Return tt ->
  files w !! input_file = Some text -> lines_of text <> [] ->
  output_file ∉ no_read w ->
  (main [prog'; output_file; output_file']
     (main [prog; input_file; output_file] w).2).1
  = Raise (InvalidLineError invalid_json [91; 10] 1).
Proof.
  rewrite !main_run.
  destruct (run_cases input_file output_file w) as [r w'] eqn:E.
  cbn [fst snd]. intros -> Hf Hne Hr.
  destruct (run_Return_inv _ _ _ _ E) as (text' & vs & Hf' & Hvs & ->).
  rewrite Hf in Hf'. injection Hf' as <-.
  destruct vs as [|v vs].
  { apply decoded_all_length in Hvs. now destruct (lines_of text). }
  destruct (lines_of_array v vs) as (rest & Hlines).
  unfold run_cases. cbn [files no_read]. rewrite lookup_insert_eq.
  rewrite decide_False by done. rewrite Hlines.
  cbn [read_records]. now rewrite bracket_alone.
Qed.

Lemma reconversion_fails_witness :
  let w := sample_world (sample "{'a': 1}|") in
  (main [lit "prep-json.py"; lit "out.json"; lit "out2.json"]
     (main sample_argv w).2).1
  = Raise (InvalidLineError invalid_json [91; 10] 1).
Proof.
  cbv zeta.
  apply (@reconversion_fails DecimalFloat.model
           (lit "prep-json.py") (lit "in.jsonl") (lit "out.json")
           (lit "prep-json.py") (lit "out2.json")
           (sample_world (sample "{'a': 1}|")) (sample "{'a': 1}|")).
  - vm_compute. reflexivity.
  - vm_compute. reflexivity.
  - vm_compute. discriminate.
  - apply not_elem_of_empty.
Defined.



(** * The characters of the output *)


Lemma plain_text_app s t : plain_text s -> plain_text t -> plain_text (s ++ t).
Proof. intros Hs Ht. apply Forall_app. done. Qed.

Lemma plain_text_printable s :
  Forall (fun c => printable c = true) s -> plain_text s.
Proof. intros H. eapply Forall_impl; [exact H|]. now left. Qed.

Lemma hex_char_printable d : d < 16 -> printable (hex_char d) = true.
Proof.
  intros H. unfold printable, hex_char.
  destruct (d <? 10) eqn:E; apply andb_true_iff;
    [apply N.ltb_lt in E|apply N.ltb_ge in E];
    split; apply N.leb_le; lia.
Qed.

Lemma format_04x_plain n : plain_text (format_04x n).
Proof.
  unfold format_04x.
  repeat (apply Forall_cons; split;
          [left; apply hex_char_printable, N.mod_lt; lia|]).
  constructor.
Qed.

Lemma u_escape_plain n : plain_text (92 :: 117 :: format_04x n).
Proof.
  apply Forall_cons; split; [now left|].
  apply Forall_cons; split; [now left|]. apply format_04x_plain.
Qed.

Lemma escape_plain c : plain_text (escape c).
Proof.
  unfold escape. destruct (ESCAPE_ASCII c) eqn:E.
  - unfold replace. destruct (ESCAPE_DCT c) as [e|] eqn:Ee.
    + unfold ESCAPE_DCT in Ee.
      repeat (case_decide; [injection Ee as <-; repeat constructor; now left|]).
      destruct (c <? 32); [|done]. injection Ee as <-. apply u_escape_plain.
    + destruct (c <? 0x10000); [apply u_escape_plain|].
      apply plain_text_app; apply u_escape_plain.
  - unfold ESCAPE_ASCII in E. apply orb_false_iff in E as [_ E].
    apply negb_false_iff in E.
    apply Forall_cons; split; [now left|constructor].
Qed.

Lemma py_encode_basestring_ascii_plain s :
  plain_text (py_encode_basestring_ascii s).
Proof.
  unfold py_encode_basestring_ascii.
  apply Forall_cons; split; [now left|].
  apply plain_text_app; [|repeat constructor; now left].
  induction s as [|c s IH]; [constructor|].
  cbn [flat_map]. apply plain_text_app; [apply escape_plain|done].
Qed.

Lemma digits_printable ds :
  all_digits ds -> Forall (fun c => printable c = true) ds.
Proof.
  intros H. eapply Forall_impl; [exact H|].
  intros c Hc. unfold is_digit in Hc.
  apply andb_true_iff in Hc as [H1 H2].
  apply N.leb_le in H1, H2. unfold printable.
  apply andb_true_iff. split; apply N.leb_le; lia.
Qed.

Lemma int_repr_printable z : Forall (fun c => printable c = true) (int_repr z).
Proof.
  destruct (int_repr_shape z) as (ds & _ & Hds & [-> | ->]).
  - now apply digits_printable.
  - apply Forall_cons; split; [done|]. now apply digits_printable.
Qed.

Lemma newline_indent_plain level : plain_text (newline_indent level).
Proof.
  rewrite newline_indent_spaces. apply Forall_cons; split; [now right|].
  apply Forall_forall. intros c ->%list_elem_of_In%repeat_spec. now left.
Qed.

Lemma join_plain sep chunks :
  plain_text sep -> Forall plain_text chunks -> plain_text (join sep chunks).
Proof.
  intros Hsep. induction 1 as [|c chunks Hc Hcs IH]; [constructor|].
  cbn [join]. destruct chunks as [|c' chunks]; [done|].
  apply plain_text_app; [done|]. now apply plain_text_app.
Qed.

Lemma decimal_repr_printable (f : DecimalFloat.dfloat) :
  Forall (fun c => printable c = true) (DecimalFloat.repr f).
Proof.
  destruct f as [m e| | |]; cbn [DecimalFloat.repr];
    try (repeat constructor; done).
  apply Forall_app; split; [apply int_repr_printable|].
  apply Forall_app; split; [now repeat constructor|apply int_repr_printable].
Qed.

Section Plain.
Context {FM : FloatModel}.
Hypothesis float_repr_printable :
forall f : pyfloat, Forall (fun c => printable c = true) (float_repr f).

Lemma floatstr_plain f : plain_text (floatstr f).
Proof.
unfold floatstr.
repeat (match goal with |- context [if ?b then _ else _] => destruct b end;
        [repeat constructor; now left|]).
apply plain_text_printable, float_repr_printable.
Qed.

Lemma _iterencode_plain v level : plain_text (_iterencode v level).
Proof.
revert level.
induction v as [|b|z|f|s|lst IH|items IH] using value_ind;
  intros level; cbn [_iterencode].
- repeat constructor; now left.
- destruct b; repeat constructor; now left.
- apply plain_text_printable, int_repr_printable.
- apply floatstr_plain.
- apply py_encode_basestring_ascii_plain.
- destruct lst as [|x lst]; [repeat constructor; now left|].
  unfold _iterencode_list.
  apply plain_text_app; [repeat constructor; now left|].
  apply plain_text_app; [apply newline_indent_plain|].
  apply plain_text_app; [|apply plain_text_app;
                           [apply newline_indent_plain
                           |repeat constructor; now left]].
  apply join_plain.
  + apply plain_text_app; [repeat constructor; now left|].
    apply newline_indent_plain.
  + apply Forall_fmap. eapply Forall_impl; [exact IH|].
    intros y Hy. apply Hy.
- destruct items as [|kv items]; [repeat constructor; now left|].
  unfold _iterencode_dict.
  apply plain_text_app; [repeat constructor; now left|].
  apply plain_text_app; [apply newline_indent_plain|].
  apply plain_text_app; [|apply plain_text_app;
                           [apply newline_indent_plain
                           |repeat constructor; now left]].
  apply join_plain.
  + apply plain_text_app; [repeat constructor; now left|].
    apply newline_indent_plain.
  + apply Forall_fmap. eapply Forall_impl; [exact IH|].
    intros y Hy. cbn beta.
    apply plain_text_app; [apply py_encode_basestring_ascii_plain|].
    apply plain_text_app; [repeat constructor; now left|apply Hy].
Qed.
End Plain.

(** X10: Whatever characters the input holds, the document a run writes is
    made of printable ASCII characters and line feeds only, provided the
    [repr] of a float is: every other character of a string is written as
    an escape. *)
Theorem output_is_plain_ascii `{FM : FloatModel}
    (prog input_file output_file : str) (w : world) :
  (forall f : pyfloat, Forall (fun c => printable c = true) (float_repr f)) ->
  (main [prog; input_file; output_file] w).1 = Return tt ->
  exists doc,
    files (main [prog; input_file; output_file] w).2 !! output_file = Some doc
    /\ Forall (fun c => printable c = true \/ c = 10) doc.
Proof.
  intros Hrepr. rewrite main_run.
  destruct (run_cases input_file output_file w) as [r w'] eqn:E.
  cbn [fst snd]. intros ->.
  destruct (run_Return_inv _ _ _ _ E) as (text & vs & Hf & Hvs & ->).
  exists (iterencode (VList vs)). cbn [files].
  split; [apply lookup_insert_eq|]. now apply _iterencode_plain.
Qed.

Lemma output_is_plain_ascii_witness :
  let text :=
    sample "{'x': [1.5, -2]}|'" ++ [0xe9; 0x1f600; 0x7f] ++ sample "'|" in
  exists doc,
    files (sample_run text).2 !! lit "out.json" = Some doc
    /\ Forall (fun c => printable c = true \/ c = 10) doc.
Proof.
  cbv zeta.
  apply (@output_is_plain_ascii DecimalFloat.model
           (lit "prep-json.py") (lit "in.jsonl") (lit "out.json")).
  - exact decimal_repr_printable.
  - vm_compute. reflexivity.
Defined.

(** * Objects with a repeated key *)

Lemma dict_setitem_fst `{FM : FloatModel} (d : list (str * value)) key v :
  (dict_setitem d key v).*1
  = if decide (key ∈ d.*1) then d.*1 else d.*1 ++ [key].
Proof.
  induction d as [|[k x] d IH]; cbn [dict_setitem].
  - rewrite decide_False by apply not_elem_of_nil. done.
  - rewrite fmap_cons. cbn [fst]. destruct (decide (k = key)) as [Hk|Hk].
    + subst. rewrite decide_True by apply list_elem_of_here. done.
    + rewrite fmap_cons, IH. cbn [fst].
      destruct (decide (key ∈ d.*1)) as [Hin|Hin].
      * rewrite decide_True by now apply list_elem_of_further. done.
      * rewrite decide_False; [done|].
        intros [->|?]%elem_of_cons; done.
Qed.

Lemma dict_setitem_map `{FM : FloatModel} (d : list (str * value)) key v :
  list_to_map (M := gmap str value) (dict_setitem d key v)
  = <[key := v]> (list_to_map d).
Proof.
  induction d as [|[k x] d IH]; cbn [dict_setitem]; [done|].
  destruct (decide (k = key)) as [Hk|Hk].
  - subst. cbn. now rewrite insert_insert_eq.
  - cbn. rewrite IH. now apply insert_insert_ne.
Qed.

Lemma dict_of_pairs_snoc `{FM : FloatModel} (pairs : list (str * value)) kv :
  dict_of_pairs (pairs ++ [kv]) = dict_setitem (dict_of_pairs pairs) kv.1 kv.2.
Proof. unfold dict_of_pairs. now rewrite fold_left_app. Qed.

(** X11: The dict built from the pairs of a JSON object holds each key once,
    at the place of its first occurrence and with the value of its last:
    its keys are the keys of the pairs without the repeats, and as a map it
    is the pairs with a later one overriding an earlier one. *)
Theorem repeated_key_last_value `{FM : FloatModel}
    (pairs : list (str * value)) :
  NoDup (dict_of_pairs pairs).*1
  /\ (dict_of_pairs pairs).*1 = reverse (remove_dups (reverse pairs.*1))
  /\ list_to_map (M := gmap str value) (dict_of_pairs pairs)
     = list_to_map (reverse pairs).
Proof.
  assert (Hkeys : (dict_of_pairs pairs).*1
                  = reverse (remove_dups (reverse pairs.*1))).
  { induction pairs as [|kv pairs IH] using rev_ind; [done|].
    rewrite dict_of_pairs_snoc, dict_setitem_fst, IH.
    rewrite fmap_app, reverse_app. cbn [fmap list_fmap reverse rev_append app].
    change (rev_append [] [kv.1]) with [kv.1]. cbn [app remove_dups].
    destruct (decide_rel elem_of kv.1 (reverse pairs.*1)) as [Hin|Hin].
    - rewrite decide_True; [done|].
      now rewrite elem_of_reverse, elem_of_remove_dups.
    - rewrite decide_False.
      + now rewrite reverse_cons.
      + now rewrite elem_of_reverse, elem_of_remove_dups. }
  split; [|split; [done|]].
  - rewrite Hkeys, reverse_Permutation. apply NoDup_remove_dups.
  - clear Hkeys. induction pairs as [|kv pairs IH] using rev_ind; [done|].
    rewrite dict_of_pairs_snoc, dict_setitem_map, IH.
    rewrite reverse_app. now destruct kv.
Qed.

(** * Line endings *)

Lemma universal_newlines_no_cr s : 13 ∉ s -> universal_newlines s = s.
Proof.
  induction s as [|c s IH]; [done|]. intros [Hc Hs]%not_elem_of_cons.
  cbn [universal_newlines]. rewrite decide_False by done.
  now rewrite IH.
Qed.

Lemma universal_newlines_to_crlf s :
  13 ∉ s -> universal_newlines (to_crlf s) = s.
Proof.
  induction s as [|c s IH]; [done|]. intros [Hc Hs]%not_elem_of_cons.
  unfold to_crlf. cbn [flat_map]. case_decide as Hlf.
  - subst. cbn [app universal_newlines].
    rewrite decide_True by done. rewrite decide_True by done.
    f_equal. now apply IH.
  - cbn [app universal_newlines]. rewrite decide_False by done.
    f_equal. now apply IH.
Qed.

Lemma lines_of_to_crlf `{FM : FloatModel} text :
  13 ∉ text -> lines_of (to_crlf text) = lines_of text.
Proof.
  intros H. unfold lines_of. f_equal.
  destruct text as [|c text]; [done|].
  apply not_elem_of_cons in H as [Hc Ht].
  unfold to_crlf. cbn [flat_map]. case_decide as Hlf.
  - subst. cbn [app utf_8_sig]. rewrite !decide_False by done.
    change (13 :: 10 :: flat_map _ text) with (to_crlf (10 :: text)).
    rewrite universal_newlines_to_crlf, universal_newlines_no_cr; try done;
      apply not_elem_of_cons; done.
  - cbn [app utf_8_sig]. case_decide.
    + now rewrite universal_newlines_to_crlf, universal_newlines_no_cr.
    + change (c :: flat_map _ text) with ([c] ++ to_crlf text).
      replace ([c] ++ to_crlf text) with (to_crlf (c :: text))
        by (unfold to_crlf; cbn [flat_map]; now rewrite decide_False).
      rewrite universal_newlines_to_crlf, universal_newlines_no_cr; try done;
        apply not_elem_of_cons; done.
Qed.

(** X12: An input file with CR LF line endings is converted like the same text
    with LF line endings: the run returns or raises the same exception, and
    the file at the output path is the same afterwards. *)
Theorem crlf_input `{FM : FloatModel}
    (prog input_file output_file : str) (w : world) (text : str) :
  files w !! input_file = Some (to_crlf text) -> 13 ∉ text ->
  input_file <> output_file ->
  (main [prog; input_file; output_file] w).1
  = (main [prog; input_file; output_file] (with_file w input_file text)).1
  /\ files (main [prog; input_file; output_file] w).2 !! output_file
     = files (main [prog; input_file; output_file]
                (with_file w input_file text)).2 !! output_file.
Proof.
  intros Hf Hcr Hne. rewrite !main_run. unfold run_cases.
  cbn [with_file files no_read no_write stdout trace].
  rewrite Hf, lookup_insert_eq, lines_of_to_crlf by done.
  assert (Ho : (<[input_file := text]> (files w)) !! output_file
               = files w !! output_file) by now apply lookup_insert_ne.
  case_decide; [done|].
  destruct (read_records _ _ _) as [objs|e]; [|done].
  case_decide; [done|]. cbn [fst snd files].
  now rewrite !lookup_insert_eq.
Qed.

Lemma crlf_input_witness :
  let text := sample "{'a': 1}|[2, 3]|" in
  let w := sample_world (to_crlf text) in
  (main sample_argv w).1
  = (main sample_argv (with_file w (lit "in.jsonl") text)).1
  /\ files (main sample_argv w).2 !! lit "out.json"
     = files (main sample_argv (with_file w (lit "in.jsonl") text)).2
         !! lit "out.json".
Proof.
  cbv zeta.
  apply (@crlf_input DecimalFloat.model
           (lit "prep-json.py") (lit "in.jsonl") (lit "out.json")
           (sample_world (to_crlf (sample "{'a': 1}|[2, 3]|")))
           (sample "{'a': 1}|[2, 3]|")).
  - vm_compute. reflexivity.
  - apply (bool_decide_unpack _). vm_compute. exact I.
  - vm_compute. discriminate.
Defined.

(** * What follows a value on its line *)


Section Append.
Context {FM : FloatModel}.


Lemma is_ws_cases c :
  is_ws c = true -> c = 32 \/ c = 9 \/ c = 10 \/ c = 13.
Proof. unfold is_ws. now intros H%bool_decide_eq_true. Qed.

Lemma ws_head_number_end tail : ws_head tail -> number_end tail.
Proof.
  destruct tail as [|c t]; [done|]. simpl.
  intros H%is_ws_cases.
  destruct H as [-> | [-> | [-> | ->]]]; repeat split; done.
Qed.

Lemma ws_head_not_in tail p :
  ws_head tail -> Forall (fun x => is_ws x = false) p ->
  match tail with [] => True | c :: _ => c ∉ p end.
Proof.
  destruct tail as [|c t]; [done|]. simpl. intros Hc Hp Hin.
  rewrite Forall_forall in Hp. specialize (Hp c Hin). congruence.
Qed.

Lemma blank_Forall s : blank s = true -> Forall (fun c => is_ws c = true) s.
Proof.
  unfold blank. induction s as [|c s IH]; [constructor|]. simpl.
  intros [Hc Hs]%andb_true_iff. constructor; [done|now apply IH].
Qed.

Lemma blank_ws_head s : blank s = true -> ws_head s.
Proof.
  destruct s as [|c s]; [done|]. simpl. now intros [? _]%andb_true_iff.
Qed.

Lemma skip_ws_nil_blank s : skip_ws s = [] -> blank s = true.
Proof.
  induction s as [|c s IH]; [done|]. simpl.
  destruct (is_ws c); [exact IH|done].
Qed.

Lemma skip_ws_app s tail :
  skip_ws s <> [] -> skip_ws (s ++ tail) = skip_ws s ++ tail.
Proof.
  induction s as [|c s IH]; [done|]. simpl.
  destruct (is_ws c); [exact IH|done].
Qed.

Lemma scanstring_app tail n :
  forall s chunks out r,
    (length s <= n)%nat -> scanstring s chunks = Some (out, r) ->
    scanstring (s ++ tail) chunks = Some (out, r ++ tail).
Proof.
  induction n as [|n IH]; intros s chunks out r Hn.
  { destruct s; [done|simpl in Hn; lia]. }
  destruct s as [|terminator s1]; [done|].
  cbn [scanstring length app] in *.
  case_decide; [now intros [= <- <-]|].
  case_decide.
  - destruct s1 as [|esc s2]; [done|]. cbn [length app] in *.
    case_decide.
    + destruct s2 as [|h1 [|h2 [|h3 [|h4 s6]]]]; try done.
      cbn [length app] in *.
      destruct (_decode_uXXXX h1 h2 h3 h4) as [uni|]; [|done].
      assert (Hlone : scanstring s6 (chunks ++ [uni]) = Some (out, r) ->
                      scanstring (s6 ++ tail) (chunks ++ [uni])
                      = Some (out, r ++ tail)).
      { apply IH. lia. }
      destruct (is_high_surrogate uni); [|exact Hlone].
      destruct s6 as [|b [|u s8]].
      * done.
      * cbn [app]. destruct tail as [|u t]; [exact Hlone|].
        case_bool_decide as Hb; [|exact Hlone].
        destruct Hb as [-> _]. done.
      * cbn [app]. case_bool_decide; [|exact Hlone].
        destruct s8 as [|l1 [|l2 [|l3 [|l4 s12]]]]; try done.
        cbn [app].
        destruct (_decode_uXXXX l1 l2 l3 l4) as [uni2|]; [|done].
        destruct (is_low_surrogate uni2); [|exact Hlone].
        cbn [length] in *. apply IH. lia.
    + destruct (BACKSLASH esc); [|done]. apply IH. lia.
  - destruct (terminator <? 32); [done|]. apply IH. lia.
Qed.

Lemma strip_prefix_app_Some p s r tail :
  strip_prefix p s = Some r -> strip_prefix p (s ++ tail) = Some (r ++ tail).
Proof.
  revert s. induction p as [|x p IH]; intros s; simpl.
  - now intros [= <-].
  - destruct s as [|c s]; [done|]. cbn [app]. case_decide; [|done].
    apply IH.
Qed.

Lemma strip_prefix_app_None p s tail :
  strip_prefix p s = None ->
  match tail with [] => True | c :: _ => c ∉ p end ->
  strip_prefix p (s ++ tail) = None.
Proof.
  revert s. induction p as [|x p IH]; intros s; [done|].
  destruct s as [|c s].
  - intros _. cbn [app]. destruct tail as [|c t]; [done|].
    intros Hc. simpl. rewrite decide_False; [done|].
    intros ->. apply Hc, list_elem_of_here.
  - cbn [app strip_prefix]. case_decide; [|done].
    intros Hs Ht. apply IH; [done|].
    destruct tail as [|d t]; [done|].
    intros Hd. apply Ht. now apply list_elem_of_further.
Qed.

Lemma integer_digits_app_None sign s tail :
  integer_digits sign s = None -> nondigit_head tail ->
  integer_digits sign (s ++ tail) = None.
Proof.
  unfold integer_digits. destruct s as [|c s].
  - intros _. cbn [app]. destruct tail as [|c t]; [done|].
    simpl. intros Hc. rewrite Hc.
    rewrite decide_False; [done|]. now intros ->.
  - cbn [app]. case_decide; [done|].
    destruct (is_digit c); [|done]. now destruct (span_digits s).
Qed.

Lemma match_number_app_None s tail :
  match_number s = None -> number_end tail ->
  match_number (s ++ tail) = None.
Proof.
  intros Hs Ht. pose proof (number_end_nondigit _ Ht) as Hnd.
  unfold match_number in *.
  assert (integer_group s = None) as Hi.
  { destruct (integer_group s) as [[i s1]|]; [|done].
    now destruct (frac_group s1), (exp_group _). }
  assert (integer_group (s ++ tail) = None) as ->; [|done].
  clear Hs. unfold integer_group in *. destruct s as [|c s].
  - cbn [app]. destruct tail as [|c t]; [done|].
    simpl in Ht. rewrite decide_False by tauto.
    apply (integer_digits_app_None [] [] (c :: t)); done.
  - cbn [app]. case_decide.
    + now apply integer_digits_app_None.
    + now apply (integer_digits_app_None [] (c :: s)).
Qed.

Lemma JSONArray_loop_app scan tail :
  consumes scan -> appends tail scan ->
  forall n m s values v r,
    (n <= m)%nat ->
    JSONArray_loop scan n s values = Some (v, r) ->
    JSONArray_loop scan m (s ++ tail) values = Some (v, r ++ tail).
Proof.
  intros Hcons Happ.
  induction n as [|n IH]; intros m s values v r Hm; [done|].
  destruct m as [|m]; [lia|]. cbn [JSONArray_loop].
  destruct (scan s) as [[x s1]|] eqn:Ex; [|done].
  rewrite (Happ _ _ _ Ex). cbv beta iota delta [mbind option_bind].
  destruct (skip_ws s1) as [|nextchar s2] eqn:Es1; [done|].
  rewrite skip_ws_app by now rewrite Es1. rewrite Es1. cbn [app].
  case_decide; [now intros [= <- <-]|].
  case_decide; [|done].
  intros H'.
  assert (skip_ws s2 <> []) as Hne.
  { intros E. rewrite E in H'. destruct n as [|n]; [done|].
    cbn [JSONArray_loop] in H'.
    destruct (scan []) as [[y s3]|] eqn:Ey; [|done].
    apply Hcons in Ey. simpl in Ey. lia. }
  rewrite skip_ws_app by done. apply IH; [lia|done].
Qed.

Lemma JSONObject_loop_app scan tail :
  consumes scan -> appends tail scan ->
  forall n m s pairs v r,
    (n <= m)%nat ->
    JSONObject_loop scan n s pairs = Some (v, r) ->
    JSONObject_loop scan m (s ++ tail) pairs = Some (v, r ++ tail).
Proof.
  intros Hcons Happ.
  induction n as [|n IH]; intros m s pairs v r Hm; [done|].
  destruct m as [|m]; [lia|]. cbn [JSONObject_loop].
  destruct (scanstring s []) as [[key s1]|] eqn:Ek; [|done].
  rewrite (scanstring_app tail (length s) _ _ _ _ ltac:(done) Ek).
  cbv beta iota delta [mbind option_bind].
  destruct (skip_ws s1) as [|colon s2] eqn:Es1; [done|].
  rewrite skip_ws_app by now rewrite Es1. rewrite Es1. cbn [app].
  case_decide; [|done].
  destruct (scan (skip_ws s2)) as [[x s3]|] eqn:Ex; [|done].
  assert (skip_ws s2 <> []) as Hne2.
  { intros E. rewrite E in Ex. apply Hcons in Ex. simpl in Ex. lia. }
  rewrite skip_ws_app by done. rewrite (Happ _ _ _ Ex).
  cbv beta iota delta [mbind option_bind].
  destruct (skip_ws s3) as [|nextchar s4] eqn:Es3; [done|].
  rewrite skip_ws_app by now rewrite Es3. rewrite Es3. cbn [app].
  case_decide; [now intros [= <- <-]|].
  case_decide; [|done].
  destruct (skip_ws s4) as [|quote s5] eqn:Es4; [done|].
  rewrite skip_ws_app by now rewrite Es4. rewrite Es4. cbn [app].
  case_decide; [|done].
  apply IH. lia.
Qed.

Lemma literal_no_ws p :
  forallb (fun x => negb (is_ws x)) p = true ->
  Forall (fun x => is_ws x = false) p.
Proof.
  induction p as [|x p IH]; [constructor|]. simpl.
  intros [Hx Hp]%andb_true_iff. constructor; [|now apply IH].
  now apply negb_true_iff.
Qed.

Lemma _scan_once_app tail fuel :
  ws_head tail -> appends tail (_scan_once fuel).
Proof.
  intros Ht. induction fuel as [|fuel IH]; intros s v r; [done|].
  destruct s as [|nextchar rest]; [done|]. cbn [_scan_once app].
  case_decide.
  { destruct (scanstring rest []) as [[x r']|] eqn:Ex; [|done].
    rewrite (scanstring_app tail (length rest) _ _ _ _ ltac:(done) Ex).
    now intros [= <- <-]. }
  case_decide.
  { unfold JSONObject.
    destruct (skip_ws rest) as [|c s1] eqn:Es; [done|].
    rewrite skip_ws_app by now rewrite Es. rewrite Es. cbn [app].
    case_decide; [now intros [= <- <-]|].
    case_decide; [|done].
    apply JSONObject_loop_app;
      [apply _scan_once_consumes|exact IH|rewrite length_app; lia]. }
  case_decide.
  { unfold JSONArray.
    destruct (skip_ws rest) as [|c s1] eqn:Es; [done|].
    rewrite skip_ws_app by now rewrite Es. rewrite Es. cbn [app].
    case_decide; [now intros [= <- <-]|].
    change (c :: s1 ++ tail) with ((c :: s1) ++ tail).
    apply JSONArray_loop_app;
      [apply _scan_once_consumes|exact IH|rewrite length_app; lia]. }
  change (nextchar :: rest ++ tail) with ((nextchar :: rest) ++ tail).
  repeat match goal with
         | |- context [strip_prefix ?p (?s ++ tail)] =>
             let E := fresh "E" in
             destruct (strip_prefix p s) eqn:E;
             [rewrite (strip_prefix_app_Some _ _ _ tail E);
              now intros [= <- <-]
             |rewrite (strip_prefix_app_None _ _ tail E)
                by (apply ws_head_not_in; [exact Ht|];
                    now apply literal_no_ws)]
         | |- context [match_number (?s ++ tail)] =>
             let E := fresh "E" in
             destruct (match_number s) as [[[[? ?] ?] ?]|] eqn:E;
             [rewrite (match_number_app _ _ _ _ _ tail E
                         (ws_head_number_end _ Ht));
              case_bool_decide; now intros [= <- <-]
             |rewrite (match_number_app_None _ tail E
                         (ws_head_number_end _ Ht))]
         end.
  done.
Qed.

(** Nothing is read from a text that starts with a record separator. *)
Lemma decode_rs t : decode (0x1e :: t) = None.
Proof. reflexivity. Qed.

Lemma loads_decode s :
  match s with c :: _ => c <> 0xfeff | [] => True end ->
  loads s = decode s.
Proof.
  destruct s as [|c t]; [done|]. intros Hc. unfold loads, startswith.
  cbn [strip_prefix]. rewrite decide_False by done. done.
Qed.

Lemma loads_head s v :
  loads s = Some v ->
  exists c t, s = c :: t /\ c <> 0xfeff /\ c <> 0x1e.
Proof.
  destruct s as [|c t]; [done|]. intros H. exists c, t.
  split; [done|]. split; intros ->; [done|].
  rewrite loads_decode in H by done. now rewrite decode_rs in H.
Qed.

(** A value followed by [tail], for the decoder: what it reads and what
    it leaves. *)
Lemma raw_decode_app s v r tail :
  ws_head tail -> raw_decode s = Some (v, r) ->
  raw_decode (s ++ tail) = Some (v, r ++ tail).
Proof.
  intros Ht. unfold raw_decode. intros H.
  rewrite (_scan_once_fuel _ (S (length (s ++ tail)))) in H
    by (rewrite ?length_app; lia).
  now apply _scan_once_app.
Qed.

Lemma decode_inv s v :
  decode s = Some v ->
  exists r, skip_ws s <> [] /\ raw_decode (skip_ws s) = Some (v, r)
            /\ skip_ws r = [].
Proof.
  unfold decode.
  destruct (raw_decode (skip_ws s)) as [[obj rest]|] eqn:E; [|done].
  cbv beta iota delta [mbind option_bind].
  destruct (skip_ws rest) eqn:Er; [|done]. intros [= <-].
  exists rest. split; [|done]. intros Hs. now rewrite Hs in E.
Qed.

Lemma decode_trailing s v post :
  decode s = Some v -> blank post = true -> decode (s ++ post) = Some v.
Proof.
  intros (r & Hne & Hraw & Hr)%decode_inv Hpost. unfold decode.
  rewrite skip_ws_app by done.
  rewrite (raw_decode_app _ _ _ post (blank_ws_head _ Hpost) Hraw).
  cbv beta iota delta [mbind option_bind].
  rewrite skip_ws_all by now apply blank_Forall, skip_ws_nil_blank.
  now rewrite skip_ws_blank.
Qed.

Lemma decode_leading pre s :
  blank pre = true -> decode (pre ++ s) = decode s.
Proof.
  intros Hpre. unfold decode. now rewrite skip_ws_all by now apply blank_Forall.
Qed.

Lemma decode_second s v sep more :
  decode s = Some v -> sep <> [] -> blank sep = true ->
  blank more = false -> decode (s ++ sep ++ more) = None.
Proof.
  intros (r & Hne & Hraw & Hr)%decode_inv Hsep Hb Hmore. unfold decode.
  rewrite skip_ws_app by done.
  assert (ws_head (sep ++ more)) as Ht.
  { destruct sep as [|c sep]; [done|]. simpl in *.
    now apply andb_true_iff in Hb as [? _]. }
  rewrite (raw_decode_app _ _ _ _ Ht Hraw).
  cbv beta iota delta [mbind option_bind].
  rewrite skip_ws_all by now apply blank_Forall, skip_ws_nil_blank.
  rewrite skip_ws_all by now apply blank_Forall.
  destruct (skip_ws more) eqn:E; [|done].
  apply skip_ws_nil_blank in E. congruence.
Qed.
End Append.

(** X13: Whitespace around a JSON value on its line changes nothing: when a
    text is a JSON value, the reader decodes the line made of whitespace,
    the text and more whitespace to the same value.  So a last line that
    lacks its newline, an indented line and a line with trailing spaces are
    read alike. *)
Theorem surrounding_whitespace_ignored `{FM : FloatModel}
    (pre line post : str) (v : value) :
  loads line = Some v -> blank pre = true -> blank post = true ->
  decoded (pre ++ line ++ post) = Some v.
Proof.
  intros Hl Hpre Hpost.
  destruct (loads_head _ _ Hl) as (c & t & -> & Hbom & Hrs).
  rewrite loads_decode in Hl by done.
  assert (Hhead : exists d u, pre ++ (c :: t) ++ post = d :: u
                              /\ d <> 0xfeff /\ d <> 0x1e).
  { destruct pre as [|d pre]; [now exists c, (t ++ post)|].
    exists d, (pre ++ (c :: t) ++ post). split; [done|].
    simpl in Hpre. apply andb_true_iff in Hpre as [Hd _].
    apply is_ws_cases in Hd. split; intros ->; lia. }
  destruct Hhead as (d & u & E & Hd1 & Hd2).
  unfold decoded, jsonlines.skip_initial. rewrite E.
  rewrite decide_False.
  2:{ unfold jsonlines.SKIPPABLE_SINGLE_INITIAL_CHARS.
      rewrite !elem_of_cons. intros [?|[?|?%elem_of_nil]]; done. }
  rewrite loads_decode by done. rewrite <- E.
  rewrite decode_leading by done. now apply decode_trailing.
Qed.

Lemma surrounding_whitespace_ignored_witness :
  decoded (FM := DecimalFloat.model)
    ([32; 32] ++ sample "{'a': [1, 2]}" ++ [32; 13; 10])
  = Some (VDict [(lit "a", VList [VInt 1; VInt 2])]).
Proof.
  apply (@surrounding_whitespace_ignored DecimalFloat.model
           [32; 32] (sample "{'a': [1, 2]}") [32; 13; 10]).
  - vm_compute. reflexivity.
  - reflexivity.
  - reflexivity.
Defined.

(** X14: One value per line: when a JSON value is followed on its line by
    whitespace and then by anything that is not whitespace, a second value
    included, the reader does not decode the line. *)
Theorem second_value_rejected `{FM : FloatModel}
    (line sep more : str) (v : value) :
  loads line = Some v -> sep <> [] -> blank sep = true ->
  blank more = false ->
  decoded (line ++ sep ++ more) = None.
Proof.
  intros Hl Hsep Hb Hmore.
  destruct (loads_head _ _ Hl) as (c & t & -> & Hbom & Hrs).
  rewrite loads_decode in Hl by done.
  unfold decoded, jsonlines.skip_initial. cbn [app].
  rewrite decide_False.
  2:{ unfold jsonlines.SKIPPABLE_SINGLE_INITIAL_CHARS.
      rewrite !elem_of_cons. intros [?|[?|?%elem_of_nil]]; done. }
  rewrite loads_decode by done.
  change (c :: t ++ sep ++ more) with ((c :: t) ++ sep ++ more).
  now apply (decode_second _ v).
Qed.

Lemma second_value_rejected_witness :
  decoded (FM := DecimalFloat.model)
    (sample "{'a': 1}" ++ [32] ++ sample "{'b': 2}|") = None.
Proof.
  apply (@second_value_rejected DecimalFloat.model
           (sample "{'a': 1}") [32] (sample "{'b': 2}|")
           (VDict [(lit "a", VInt 1)])).
  - vm_compute. reflexivity.
  - discriminate.
  - reflexivity.
  - reflexivity.
Defined.

(** * Inputs put end to end *)

Lemma universal_newlines_lf a b :
  universal_newlines (a ++ 10 :: b)
  = universal_newlines (a ++ [10]) ++ universal_newlines b.
Proof.
  induction a as [a IH] using (induction_ltof1 _ (@length N)).
  unfold ltof in IH.
  destruct a as [|c a]; cbn [app universal_newlines].
  { rewrite decide_False by done. done. }
  case_decide.
  - destruct a as [|d a]; cbn [app].
    + rewrite !decide_True by done. done.
    + case_decide.
      * rewrite (IH a) by (simpl; lia). done.
      * change (d :: a ++ 10 :: b) with ((d :: a) ++ 10 :: b).
        rewrite (IH (d :: a)) by (simpl; lia). done.
  - rewrite (IH a) by (simpl; lia). done.
Qed.

Lemma universal_newlines_last a :
  exists y, universal_newlines (a ++ [10]) = y ++ [10].
Proof.
  induction a as [a IH] using (induction_ltof1 _ (@length N)).
  unfold ltof in IH.
  destruct a as [|c a]; cbn [app universal_newlines].
  { rewrite decide_False by done. now exists []. }
  case_decide.
  - destruct a as [|d a]; cbn [app].
    + rewrite decide_True by done. now exists [].
    + case_decide.
      * destruct (IH a ltac:(simpl; lia)) as (y & ->). now exists (10 :: y).
      * destruct (IH (d :: a) ltac:(simpl; lia)) as (y & Hy).
        cbn [app] in Hy. rewrite Hy. now exists (10 :: y).
  - destruct (IH a ltac:(simpl; lia)) as (y & ->). now exists (c :: y).
Qed.

Lemma readlines_from_lf x y line :
  readlines_from (x ++ 10 :: y) line
  = readlines_from (x ++ [10]) line ++ readlines_from y [].
Proof.
  revert line. induction x as [|c x IH]; intros line; cbn [app readlines_from].
  - rewrite !decide_True by done. done.
  - case_decide; [|apply IH]. cbn [app]. f_equal. apply IH.
Qed.

Lemma lines_of_lf `{FM : FloatModel} t1 t2 :
  head t2 <> Some 0xfeff ->
  lines_of (t1 ++ [10] ++ t2) = lines_of (t1 ++ [10]) ++ lines_of t2.
Proof.
  intros Hbom. unfold lines_of, readlines.
  assert (utf_8_sig t2 = t2) as ->.
  { destruct t2 as [|c t2]; [done|]. cbn [utf_8_sig head] in *.
    rewrite decide_False; [done|]. congruence. }
  assert (exists u, utf_8_sig (t1 ++ [10] ++ t2) = u ++ 10 :: t2
                    /\ utf_8_sig (t1 ++ [10]) = u ++ [10]) as (u & -> & ->).
  { destruct t1 as [|c t1]; cbn [app utf_8_sig].
    - rewrite !decide_False by done. now exists [].
    - case_decide; [now exists t1|now exists (c :: t1)]. }
  rewrite universal_newlines_lf.
  destruct (universal_newlines_last u) as (y & ->).
  rewrite <- app_assoc. apply readlines_from_lf.
Qed.

(** X15: Converting two inputs put end to end gives the two arrays put end to
    end: when the first text ends with a line feed, the document written for
    the concatenation holds the records of the first text followed by the
    records of the second. *)
Theorem concatenated_inputs `{FM : FloatModel}
    (prog input_file output_file : str) (w : world) (t1 t2 : str)
    (vs1 vs2 : list value) :
  decoded_all (lines_of (t1 ++ [10])) vs1 -> decoded_all (lines_of t2) vs2 ->
  head t2 <> Some 0xfeff ->
  files w !! input_file = Some (t1 ++ [10] ++ t2) ->
  input_file ∉ no_read w -> output_file ∉ no_write w ->
  (main [prog; input_file; output_file] w).1 = Return tt
  /\ files (main [prog; input_file; output_file] w).2 !! output_file
     = Some (iterencode (VList (vs1 ++ vs2))).
Proof.
  intros H1 H2 Hbom Hf Hr Hw. rewrite main_run.
  assert (decoded_all (lines_of (t1 ++ [10] ++ t2)) (vs1 ++ vs2)) as Hall.
  { rewrite lines_of_lf by done. now apply Forall2_app. }
  destruct (run_records _ output_file _ _ Hf Hr Hw
              (decoded_all_record _ _ Hall)) as (vs & Hvs & ->).
  rewrite (decoded_all_fun _ _ _ Hvs Hall). cbn [fst snd files].
  split; [done|]. apply lookup_insert_eq.
Qed.

Lemma concatenated_inputs_witness :
  let w := sample_world (sample "{'a': 1}|[2]" ++ [10] ++ sample "'three'|4") in
  (main (FM := DecimalFloat.model) sample_argv w).1 = Return tt
  /\ files (main sample_argv w).2 !! lit "out.json"
     = Some (iterencode
               (VList ([VDict [(lit "a", VInt 1)]; VList [VInt 2]]
                       ++ [VStr (lit "three"); VInt 4]))).
Proof.
  cbv zeta.
  apply (@concatenated_inputs DecimalFloat.model
           (lit "prep-json.py") (lit "in.jsonl") (lit "out.json")
           (sample_world
              (sample "{'a': 1}|[2]" ++ [10] ++ sample "'three'|4"))
           (sample "{'a': 1}|[2]") (sample "'three'|4")).
  - repeat constructor; try (vm_compute; reflexivity); discriminate.
  - repeat constructor; try (vm_compute; reflexivity); discriminate.
  - vm_compute. discriminate.
  - vm_compute. reflexivity.
  - apply not_elem_of_empty.
  - apply not_elem_of_empty.
Defined.

(** * The same path for input and output *)

(** X16: The input and the output may be the same file: it is read to the end
    and closed before it is opened for writing, so the run returns and
    leaves in it the array of the records it held. *)
Theorem in_place_conversion `{FM : FloatModel}
    (prog path : str) (w : world) (text : str) (vs : list value) :
  files w !! path = Some text -> path ∉ no_read w -> path ∉ no_write w ->
  decoded_all (lines_of text) vs ->
  (main [prog; path; path] w).1 = Return tt
  /\ files (main [prog; path; path] w).2 !! path
     = Some (iterencode (VList vs))
  /\ trace (main [prog; path; path] w).2
     = trace w ++ [EvOpen path R; EvClose path; EvOpen path W;
                   EvWrite path (iterencode (VList vs)); EvClose path].
Proof.
  intros Hf Hr Hw Hvs. rewrite main_run.
  destruct (run_records _ path _ _ Hf Hr Hw (decoded_all_record _ _ Hvs))
    as (vs' & Hvs' & ->).
  rewrite (decoded_all_fun _ _ _ Hvs' Hvs). cbn [fst snd files trace].
  split; [done|]. split; [apply lookup_insert_eq|done].
Qed.

Lemma in_place_conversion_witness :
  let w := sample_world (sample "{'a': 1}|[2]|") in
  let vs := [VDict [(lit "a", VInt 1)]; VList [VInt 2]] in
  let argv := [lit "prep-json.py"; lit "in.jsonl"; lit "in.jsonl"] in
  (main (FM := DecimalFloat.model) argv w).1 = Return tt
  /\ files (main argv w).2 !! lit "in.jsonl" = Some (iterencode (VList vs))
  /\ trace (main argv w).2
     = trace w ++ [EvOpen (lit "in.jsonl") R; EvClose (lit "in.jsonl");
                   EvOpen (lit "in.jsonl") W;
                   EvWrite (lit "in.jsonl") (iterencode (VList vs));
                   EvClose (lit "in.jsonl")].
Proof.
  cbv zeta.
  apply (@in_place_conversion DecimalFloat.model
           (lit "prep-json.py") (lit "in.jsonl")
           (sample_world (sample "{'a': 1}|[2]|")) (sample "{'a': 1}|[2]|")).
  - vm_compute. reflexivity.
  - apply not_elem_of_empty.
  - apply not_elem_of_empty.
  - repeat constructor; try (vm_compute; reflexivity); discriminate.
Defined.
